(** * Minos CSL Utility: the ingestion-and-reconciliation engine

    A shallow embedding of [CSL_Utility.py] (version 0.7): the
    [ContestRecord] data class, the [ContestLogManager] engine with its
    three merge modes, the four loaders (CSL, EDI, ADIF, Minos XML), the CSL
    writer, the observer list and the progress callback.

    Modelling conventions.
    - A Python [str] is a [string]; only the ASCII range is interpreted:
      [upper]/[lower] change the letters a-z/A-Z, [strip] removes the ASCII
      characters for which [str.isspace] holds, every other character is an
      ordinary caseless non-space character.
    - Exceptions are values of [exn]; a method is a state transformer over
      [World] that returns a value or raises, and the state reached at the
      point of the raise is kept (Python has no rollback).
    - The Python float produced by a true division is a rational [Q].
    - The file system, the observer callbacks and the progress sink are
      fields of [World]; logging output is not modelled. *)

From Stdlib Require Import String Ascii QArith ZArith List Bool Lia Lqa Sorted.
From stdpp Require Import gmap strings list.

Open Scope string_scope.
Open Scope list_scope.
Open Scope Z_scope.

(** ** Python string primitives *)

Module PyStr.

Definition is_lower (c : ascii) : bool :=
  let n := nat_of_ascii c in (97 <=? n)%nat && (n <=? 122)%nat.

Definition is_upper (c : ascii) : bool :=
  let n := nat_of_ascii c in (65 <=? n)%nat && (n <=? 90)%nat.

Definition upper_char (c : ascii) : ascii :=
  if is_lower c then ascii_of_nat (nat_of_ascii c - 32) else c.

Definition lower_char (c : ascii) : ascii :=
  if is_upper c then ascii_of_nat (nat_of_ascii c + 32) else c.

Fixpoint map_chars (f : ascii -> ascii) (s : string) : string :=
  match s with
  | EmptyString => EmptyString
  | String c s' => String (f c) (map_chars f s')
  end.

(** [s.upper()] and [s.lower()] *)
Definition upper : string -> string := map_chars upper_char.
Definition lower : string -> string := map_chars lower_char.

(** [c.isspace()] on ASCII: TAB LF VT FF CR, FS GS RS US, SPACE *)
Definition isspace (c : ascii) : bool :=
  let n := nat_of_ascii c in
  ((9 <=? n)%nat && (n <=? 13)%nat)
  || ((28 <=? n)%nat && (n <=? 31)%nat)
  || (n =? 32)%nat.

Fixpoint lstrip (s : string) : string :=
  match s with
  | EmptyString => EmptyString
  | String c s' => if isspace c then lstrip s' else s
  end.

Fixpoint rstrip (s : string) : string :=
  match s with
  | EmptyString => EmptyString
  | String c s' =>
      match rstrip s' with
      | EmptyString => if isspace c then EmptyString else String c EmptyString
      | t => String c t
      end
  end.

(** [s.strip()] *)
Definition strip (s : string) : string := rstrip (lstrip s).

(** Truth value of a string: [bool(s)] *)
Definition truthy (s : string) : bool :=
  match s with EmptyString => false | _ => true end.

(** [s.startswith(p)] *)
Definition startswith (s p : string) : bool := String.prefix p s.

(** [s.find(sub, start)], with Python's -1 for "not found" *)
Definition find_from (s sub : string) (start : nat) : Z :=
  match String.index start sub s with
  | Some i => Z.of_nat i
  | None => -1
  end.

Definition find (s sub : string) : Z := find_from s sub 0.

(** [sub in s] *)
Definition contains (s sub : string) : bool :=
  match String.index 0 sub s with Some _ => true | None => false end.

Fixpoint drop (n : nat) (s : string) : string :=
  match n, s with
  | O, _ => s
  | S n', String _ s' => drop n' s'
  | S _, EmptyString => EmptyString
  end.

Fixpoint take (n : nat) (s : string) : string :=
  match n, s with
  | S n', String c s' => String c (take n' s')
  | _, _ => EmptyString
  end.

(** A slice bound as Python normalises it: a negative bound counts from
    the end, and the result is clamped to [0, len]. *)
Definition norm_bound (len : nat) (i : Z) : nat :=
  let j := if i <? 0 then i + Z.of_nat len else i in
  Z.to_nat (Z.min (Z.max j 0) (Z.of_nat len)).

(** [s[a:b]], [s[a:]] and [s[:b]] *)
Definition slice (s : string) (a b : Z) : string :=
  let len := String.length s in
  let a' := norm_bound len a in
  let b' := norm_bound len b in
  take (b' - a') (drop a' s).

Definition slice_from (s : string) (a : Z) : string :=
  drop (norm_bound (String.length s) a) s.

Definition slice_to (s : string) (b : Z) : string :=
  take (norm_bound (String.length s) b) s.

(** [s.split(sep)] for a one-character separator: never the empty list *)
Fixpoint split (sep : ascii) (s : string) : list string :=
  match s with
  | EmptyString => [EmptyString]
  | String c s' =>
      if Ascii.eqb c sep then EmptyString :: split sep s'
      else match split sep s' with
           | h :: t => String c h :: t
           | [] => [String c EmptyString]
           end
  end.

(** [sep.join(l)] *)
Fixpoint join (sep : string) (l : list string) : string :=
  match l with
  | [] => EmptyString
  | [x] => x
  | x :: rest => x +:+ sep +:+ join sep rest
  end.

Definition is_digit (c : ascii) : bool :=
  let n := nat_of_ascii c in (48 <=? n)%nat && (n <=? 57)%nat.

Definition digit_val (c : ascii) : Z := Z.of_nat (nat_of_ascii c - 48).

(** The digits of a decimal literal; one underscore is allowed between
    two digits. [prev] tells whether the previous character was a digit. *)
Fixpoint digits (prev : bool) (acc : Z) (s : string) : option Z :=
  match s with
  | EmptyString => if prev then Some acc else None
  | String c s' =>
      if is_digit c then digits true (10 * acc + digit_val c) s'
      else if Ascii.eqb c "_" then
             if prev then
               match s' with
               | String d _ => if is_digit d then digits false acc s' else None
               | EmptyString => None
               end
             else None
      else None
  end.

(** [int(s)]: surrounding whitespace, an optional sign, decimal digits;
    [None] is [ValueError]. *)
Definition int (s : string) : option Z :=
  match strip s with
  | String "-" r => option_map Z.opp (digits false 0 r)
  | String "+" r => digits false 0 r
  | r => digits false 0 r
  end.

End PyStr.

Import PyStr.

(** ** The record data class *)

Inductive MergeMode := KEEP_ALL | KEEP_RECENT | SMART_MERGE.

Record ContestRecord := mkRecord {
  callsign : string;
  locator : string;
  exchange : string;
  comment : string
}.

(** Exceptions that the engine raises or lets through. [IOError] is
    Python 3's [OSError], [ParseError] is [xml.etree.ElementTree.ParseError]
    and [csv_Error] is [csv.Error]; the message is what [str(e)] returns. *)
Inductive exn :=
| FileNotFoundError (msg : string)
| ValueError (msg : string)
| TypeError (msg : string)
| IOError (msg : string)
| ZeroDivisionError (msg : string)
| AttributeError (msg : string)
| ParseError (msg : string)
| csv_Error (msg : string).

Definition str_exn (e : exn) : string :=
  match e with
  | FileNotFoundError m | ValueError m | TypeError m
  | IOError m | ZeroDivisionError m | AttributeError m | ParseError m
  | csv_Error m => m
  end.

Inductive result (A : Type) :=
| Ok (a : A)
| Raise (e : exn).
Arguments Ok {A} a.
Arguments Raise {A} e.

Module Record.

Definition to_list (r : ContestRecord) : list string :=
  [callsign r; locator r; exchange r; comment r].

(** [from_list]: four fields make a record, more than four are too many
    constructor arguments, and for one to three fields only [data[0]] is
    kept, followed by [4 - len(data)] empty strings (the fourth field
    then takes its default, the empty string). *)
Definition from_list (data : list string) : result ContestRecord :=
  match data with
  | [] => Raise (ValueError "Cannot create ContestRecord from empty data")
  | [a; b; c; d] => Ok (mkRecord a b c d)
  | a :: _ =>
      if (4 <=? length data)%nat
      then Raise (TypeError "__init__() takes from 2 to 5 positional arguments")
      else Ok (mkRecord a "" "" "")
  end.

Definition has_more_than_callsign (r : ContestRecord) : bool :=
  truthy (strip (locator r)) || truthy (strip (exchange r))
  || truthy (strip (comment r)).

(** [__eq__] *)
Definition eqb (r other : ContestRecord) : bool :=
  String.eqb (upper (callsign r)) (upper (callsign other))
  && String.eqb (strip (locator r)) (strip (locator other))
  && String.eqb (strip (exchange r)) (strip (exchange other))
  && String.eqb (strip (comment r)) (strip (comment other)).

(** The callsign test of the list comprehension in
    [add_or_merge_record] *)
Definition same_call (new_record r : ContestRecord) : bool :=
  String.eqb (upper (callsign r)) (upper (callsign new_record)).

End Record.

(** ** Python list operations that go through [__eq__] *)

Module PyList.

(** [x in l] *)
Definition contains (l : list ContestRecord) (x : ContestRecord) : bool :=
  existsb (fun item => Record.eqb item x) l.

(** [l.index(x)]; [None] is [ValueError] *)
Fixpoint index (l : list ContestRecord) (x : ContestRecord) : option nat :=
  match l with
  | [] => None
  | item :: rest =>
      if Record.eqb item x then Some O else option_map S (index rest x)
  end.

(** [l.remove(x)]; [None] is [ValueError] *)
Fixpoint remove (l : list ContestRecord) (x : ContestRecord)
  : option (list ContestRecord) :=
  match l with
  | [] => None
  | item :: rest =>
      if Record.eqb item x then Some rest
      else option_map (cons item) (remove rest x)
  end.

End PyList.

(** ** The engine state and its environment *)

Record ContestLogManager := mkManager {
  records : list ContestRecord;
  current_file : option string;
  merge_mode : MergeMode;
  remove_callsign_only : bool;
  observers : list nat;
  has_unsaved_changes : bool
}.

(** [ContestLogManager.__init__] *)
Definition init : ContestLogManager :=
  mkManager [] None KEEP_ALL false [] false.

(** How a write to a path goes wrong: [open] fails and the file is left as
    it was, or the write fails after [n] characters reached the file. *)
Inductive io_fault :=
| OpenFails (msg : string)
| WriteFails (n : nat) (msg : string).

(** What surrounds the engine. An observer is a callback handle, and
    [notified] lists the handles in the order they were called; a callback
    returns normally. [delivered] lists the values handed to the caller's
    progress sink. [disk] maps a path to the text of the file, [faults]
    tells which paths cannot be written. *)
Record World := mkWorld {
  self : ContestLogManager;
  notified : list nat;
  delivered : list Q;
  disk : gmap string string;
  faults : gmap string io_fault
}.

Definition M (A : Type) : Type := World -> result A * World.

Definition ret {A} (a : A) : M A := fun w => (Ok a, w).

Definition raise {A} (e : exn) : M A := fun w => (Raise e, w).

Definition bind {A B} (m : M A) (k : A -> M B) : M B :=
  fun w => match m w with
           | (Ok a, w') => k a w'
           | (Raise e, w') => (Raise e, w')
           end.

(** [try: m  except Exception as e: h e] *)
Definition try_except {A} (m : M A) (h : exn -> M A) : M A :=
  fun w => match m w with
           | (Ok a, w') => (Ok a, w')
           | (Raise e, w') => h e w'
           end.

Definition lift {A} (r : result A) : M A := fun w => (r, w).

Declare Scope py_scope.
Delimit Scope py_scope with py.
Notation "x <- m ;; k" := (bind m (fun x => k))
  (at level 100, m at next level, right associativity) : py_scope.
Notation "m ;; k" := (bind m (fun _ => k))
  (at level 100, right associativity) : py_scope.
Open Scope py_scope.

Definition get_self : M ContestLogManager := fun w => (Ok (self w), w).

Definition put_self (s : ContestLogManager) : M unit :=
  fun w => (Ok tt, mkWorld s (notified w) (delivered w) (disk w) (faults w)).

Definition set_records (l : list ContestRecord) : M unit :=
  s <- get_self ;;
  put_self (mkManager l (current_file s) (merge_mode s)
              (remove_callsign_only s) (observers s) (has_unsaved_changes s)).

Definition set_has_unsaved_changes (b : bool) : M unit :=
  s <- get_self ;;
  put_self (mkManager (records s) (current_file s) (merge_mode s)
              (remove_callsign_only s) (observers s) b).

Definition set_current_file (p : string) : M unit :=
  s <- get_self ;;
  put_self (mkManager (records s) (Some p) (merge_mode s)
              (remove_callsign_only s) (observers s) (has_unsaved_changes s)).

Definition set_merge_mode (mode : MergeMode) : M unit :=
  s <- get_self ;;
  put_self (mkManager (records s) (current_file s) mode
              (remove_callsign_only s) (observers s) (has_unsaved_changes s)).

Definition set_remove_callsign_only (value : bool) : M unit :=
  s <- get_self ;;
  put_self (mkManager (records s) (current_file s) (merge_mode s)
              value (observers s) (has_unsaved_changes s)).

Definition add_observer (callback : nat) : M unit :=
  s <- get_self ;;
  put_self (mkManager (records s) (current_file s) (merge_mode s)
              (remove_callsign_only s) (observers s ++ [callback])
              (has_unsaved_changes s)).

(** Every registered callback is called, in registration order. *)
Definition notify_observers : M unit :=
  fun w => (Ok tt, mkWorld (self w) (notified w ++ observers (self w))
                     (delivered w) (disk w) (faults w)).

Definition reset : M unit :=
  s <- get_self ;;
  (match records s with
   | [] => ret tt
   | _ :: _ => set_has_unsaved_changes true
   end) ;;
  set_records [] ;;
  notify_observers.

(** ** The reconciliation entry point *)

Definition merged_record (existing_record new_record : ContestRecord)
  : ContestRecord :=
  mkRecord
    (callsign existing_record)
    (if truthy (strip (locator new_record))
     then locator new_record else locator existing_record)
    (if truthy (strip (exchange new_record))
     then exchange new_record else exchange existing_record)
    (if truthy (strip (comment new_record))
     then comment new_record else comment existing_record).

Definition add_or_merge_record (new_record : ContestRecord) : M unit :=
  s <- get_self ;;
  if negb (truthy (callsign new_record)) then ret tt
  else if remove_callsign_only s
          && negb (Record.has_more_than_callsign new_record) then ret tt
  else
    let existing_records :=
      List.filter (Record.same_call new_record) (records s) in
    (match merge_mode s with
     | KEEP_ALL =>
         if negb (PyList.contains (records s) new_record)
         then set_records (records s ++ [new_record])
         else ret tt
     | KEEP_RECENT =>
         (match existing_records with
          | first :: _ =>
              match PyList.remove (records s) first with
              | Some l => set_records l
              | None => raise (ValueError "list.remove(x): x not in list")
              end
          | [] => ret tt
          end) ;;
         s' <- get_self ;;
         set_records (records s' ++ [new_record])
     | SMART_MERGE =>
         match existing_records with
         | existing_record :: _ =>
             match PyList.index (records s) existing_record with
             | Some i =>
                 set_records
                   (<[i := merged_record existing_record new_record]>
                      (records s))
             | None => raise (ValueError "x is not in list")
             end
         | [] => set_records (records s ++ [new_record])
         end
     end) ;;
    set_has_unsaved_changes true ;;
    notify_observers.

(** ** Numbers: true division and the built-in [min] and [max] *)

Module PyNum.

(** [a / b] on integers *)
Definition truediv (a b : Z) : result Q :=
  if b =? 0 then Raise (ZeroDivisionError "division by zero")
  else Ok (inject_Z a / inject_Z b)%Q.

(** [max(a, b)] keeps [a] unless [b] is greater; [min(a, b)] keeps [a]
    unless [b] is smaller. *)
Definition max (a b : Q) : Q := if Qle_bool b a then a else b.
Definition min (a b : Q) : Q := if Qle_bool a b then a else b.

End PyNum.

(** ** Text files *)

Module PyFile.

Definition LF : ascii := "010"%char.
Definition CR : ascii := "013"%char.

(** Reading in text mode with the default [newline=None]: a CR LF pair
    and a lone CR both arrive as LF. *)
Fixpoint universal_newlines (s : string) : string :=
  match s with
  | EmptyString => EmptyString
  | String c s' =>
      if Ascii.eqb c CR then
        match s' with
        | String d s'' =>
            if Ascii.eqb d LF then String LF (universal_newlines s'')
            else String LF (universal_newlines s')
        | EmptyString => String LF EmptyString
        end
      else String c (universal_newlines s')
  end.

(** [f.readlines()]: every line keeps its final LF; the last line may
    lack it. *)
Fixpoint readlines (s : string) : list string :=
  match s with
  | EmptyString => []
  | String c s' =>
      if Ascii.eqb c LF then String LF EmptyString :: readlines s'
      else match readlines s' with
           | l :: rest => String c l :: rest
           | [] => [String c EmptyString]
           end
  end.

(** [os.path.getsize(path)]: only its failure matters, the size goes to
    the log. *)
Definition getsize (path : string) : M unit :=
  fun w => match disk w !! path with
           | Some _ => (Ok tt, w)
           | None => (Raise (FileNotFoundError "No such file or directory"), w)
           end.

(** [open(path, "r", encoding='utf-8')] followed by [f.read()] *)
Definition read (path : string) : M string :=
  fun w => match disk w !! path with
           | Some text => (Ok (universal_newlines text), w)
           | None => (Raise (FileNotFoundError "No such file or directory"), w)
           end.

(** [open(path, "w", newline='')] followed by the writes of [data] *)
Definition write (path data : string) : M unit :=
  fun w => match faults w !! path with
           | None =>
               (Ok tt, mkWorld (self w) (notified w) (delivered w)
                         (<[path := data]> (disk w)) (faults w))
           | Some (OpenFails msg) => (Raise (IOError msg), w)
           | Some (WriteFails n msg) =>
               (Raise (IOError msg),
                mkWorld (self w) (notified w) (delivered w)
                  (<[path := take n data]> (disk w)) (faults w))
           end.

(** [Path(p).exists()] *)
Definition exists_ (path : string) : M bool :=
  fun w => (Ok (bool_decide (is_Some (disk w !! path))), w).

(** The final component of a path without a trailing slash *)
Fixpoint name (p : string) : string :=
  match p with
  | EmptyString => EmptyString
  | String c p' =>
      if contains p' "/" then name p'
      else if Ascii.eqb c "/" then p' else p
  end.

(** Index of the last dot of [s], counted from [i] *)
Fixpoint rfind_dot (s : string) (i : nat) : option nat :=
  match s with
  | EmptyString => None
  | String c s' =>
      match rfind_dot s' (S i) with
      | Some j => Some j
      | None => if Ascii.eqb c "." then Some i else None
      end
  end.

(** [Path(p).suffix]: from the last dot of the name on, unless that dot
    is the first or the last character of the name. *)
Definition suffix (p : string) : string :=
  let n := name p in
  match rfind_dot n 0 with
  | Some i =>
      if ((0 <? i) && (i <? String.length n - 1))%nat then drop i n
      else EmptyString
  | None => EmptyString
  end.

End PyFile.

(** ** The [csv] module with its default dialect

    Delimiter comma, quote character the double quote, doubled quotes
    inside quoted fields, minimal quoting, line terminator CR LF, not
    strict. The field size limit is not modelled. *)

Module csv.

Definition DQUOTE : ascii := "034"%char.
Definition COMMA : ascii := ","%char.

Inductive state :=
| START_RECORD | START_FIELD | IN_FIELD
| IN_QUOTED_FIELD | QUOTE_IN_QUOTED_FIELD | EAT_CRNL.

(** The parser: its state, the fields saved so far and the characters of
    the field being read, both latest first. *)
Record parser := mkParser {
  st : state;
  fields : list string;
  field : list ascii
}.

Definition fresh : parser := mkParser START_RECORD [] [].

Definition parse_add_char (p : parser) (c : ascii) (s : state) : parser :=
  mkParser s (fields p) (c :: field p).

Definition parse_save_field (p : parser) (s : state) : parser :=
  mkParser s (string_of_list_ascii (rev (field p)) :: fields p) [].

Definition set_state (p : parser) (s : state) : parser :=
  mkParser s (fields p) (field p).

Definition is_newline (c : ascii) : bool :=
  Ascii.eqb c PyFile.LF || Ascii.eqb c PyFile.CR.

Definition start_field (p : parser) (c : option ascii) : parser :=
  match c with
  | None => parse_save_field p START_RECORD
  | Some c =>
      if is_newline c then parse_save_field p EAT_CRNL
      else if Ascii.eqb c DQUOTE then set_state p IN_QUOTED_FIELD
      else if Ascii.eqb c COMMA then parse_save_field p START_FIELD
      else parse_add_char p c IN_FIELD
  end.

(** [parse_process_char]; the input [None] is the end of a line, the
    result [None] is [csv.Error]. *)
Definition parse_process_char (p : parser) (c : option ascii)
  : option parser :=
  match st p with
  | START_RECORD =>
      match c with
      | None => Some p
      | Some ch =>
          if is_newline ch then Some (set_state p EAT_CRNL)
          else Some (start_field p c)
      end
  | START_FIELD => Some (start_field p c)
  | IN_FIELD =>
      match c with
      | None => Some (parse_save_field p START_RECORD)
      | Some ch =>
          if is_newline ch then Some (parse_save_field p EAT_CRNL)
          else if Ascii.eqb ch COMMA then Some (parse_save_field p START_FIELD)
          else Some (parse_add_char p ch IN_FIELD)
      end
  | IN_QUOTED_FIELD =>
      match c with
      | None => Some p
      | Some ch =>
          if Ascii.eqb ch DQUOTE then Some (set_state p QUOTE_IN_QUOTED_FIELD)
          else Some (parse_add_char p ch IN_QUOTED_FIELD)
      end
  | QUOTE_IN_QUOTED_FIELD =>
      match c with
      | None => Some (parse_save_field p START_RECORD)
      | Some ch =>
          if Ascii.eqb ch DQUOTE then Some (parse_add_char p ch IN_QUOTED_FIELD)
          else if Ascii.eqb ch COMMA then Some (parse_save_field p START_FIELD)
          else if is_newline ch then Some (parse_save_field p EAT_CRNL)
          else Some (parse_add_char p ch IN_FIELD)
      end
  | EAT_CRNL =>
      match c with
      | None => Some (set_state p START_RECORD)
      | Some ch => if is_newline ch then Some p else None
      end
  end.

(** One line of input: its characters, then the end-of-line mark. *)
Fixpoint feed_line (p : parser) (line : string) : option parser :=
  match line with
  | EmptyString => parse_process_char p None
  | String c rest =>
      match parse_process_char p (Some c) with
      | Some p' => feed_line p' rest
      | None => None
      end
  end.

Definition new_line_error : exn :=
  csv_Error "new-line character seen in unquoted field - do you need to open the file with newline=''?".

(** The rows that iterating [csv.reader(lines)] yields, and the error
    that ends the iteration if there is one. A row is returned when a
    line leaves the parser at [START_RECORD]; when the input ends inside
    a record the pending field is saved and the row returned. *)
Fixpoint read_rows (p : parser) (lines : list string)
  : list (list string) * option exn :=
  match lines with
  | [] =>
      match field p, st p with
      | [], IN_QUOTED_FIELD | _ :: _, _ =>
          ([rev (fields (parse_save_field p START_RECORD))], None)
      | [], _ => ([], None)
      end
  | line :: rest =>
      match feed_line p line with
      | None => ([], Some new_line_error)
      | Some p' =>
          match st p' with
          | START_RECORD =>
              let '(rows, e) := read_rows fresh rest in
              (rev (fields p') :: rows, e)
          | _ => read_rows p' rest
          end
      end
  end.

Definition reader (lines : list string) : list (list string) * option exn :=
  read_rows fresh lines.

Definition needs_quote (c : ascii) : bool :=
  Ascii.eqb c COMMA || Ascii.eqb c DQUOTE || is_newline c.

Fixpoint any_char (f : ascii -> bool) (s : string) : bool :=
  match s with
  | EmptyString => false
  | String c s' => f c || any_char f s'
  end.

Fixpoint double_quotes (s : string) : string :=
  match s with
  | EmptyString => EmptyString
  | String c s' =>
      if Ascii.eqb c DQUOTE then String DQUOTE (String DQUOTE (double_quotes s'))
      else String c (double_quotes s')
  end.

(** One field as the writer emits it; [alone] tells that it is the only
    field of its row, in which case an empty field is quoted. *)
Definition write_field (alone : bool) (f : string) : string :=
  if any_char needs_quote f || (alone && negb (truthy f))
  then String DQUOTE (double_quotes f +:+ String DQUOTE EmptyString)
  else f.

Definition writerow (row : list string) : string :=
  join "," (map (write_field (length row =? 1)%nat) row)
  +:+ String PyFile.CR (String PyFile.LF EmptyString).

Fixpoint writerows (rows : list (list string)) : string :=
  match rows with
  | [] => EmptyString
  | row :: rest => writerow row +:+ writerows rest
  end.

End csv.

(** ** The CSL writer and the CSL loader *)

Definition VERSION : string := "0.7".

Definition HEADER : string :=
  "# Minos CSL Utility by G4CTP v" +:+ VERSION +:+ String PyFile.LF
  "# <Callsign>, <Locator>, <Exchange>, <Comment>".

Definition save_csl (filename : string) : M unit :=
  try_except
    (s <- get_self ;;
     PyFile.write filename
       (HEADER +:+ String PyFile.LF EmptyString
        +:+ csv.writerows (map Record.to_list (records s))) ;;
     set_has_unsaved_changes false ;;
     notify_observers)
    (fun e => raise (IOError ("Failed to save file: " +:+ str_exn e))).

(** A progress callback as the loaders receive it *)
Definition callback : Type := Q -> M unit.

(** [if progress_callback: progress_callback(<percentage>)], where the
    percentage is computed only when there is a callback *)
Definition report (progress_callback : option callback) (percentage : result Q)
  : M unit :=
  match progress_callback with
  | Some cb => p <- lift percentage ;; cb p
  | None => ret tt
  end.

Definition percent (a b : Z) : result Q :=
  match PyNum.truediv a b with
  | Ok q => Ok (q * 100)%Q
  | Raise e => Raise e
  end.

(** The body of [for row in reader] in [load_csl] *)
Fixpoint csl_rows (progress_callback : option callback) (total_lines : nat)
  (processed_lines : nat) (rows : list (list string)) : M unit :=
  match rows with
  | [] => ret tt
  | row :: rest =>
      let processed_lines := S processed_lines in
      (match row with
       | [] => ret tt
       | _ :: _ =>
           r <- lift (Record.from_list (map strip row)) ;;
           add_or_merge_record r
       end) ;;
      report progress_callback
        (percent (Z.of_nat processed_lines) (Z.of_nat total_lines)) ;;
      csl_rows progress_callback total_lines processed_lines rest
  end.

Definition raise_pending (e : option exn) : M unit :=
  match e with
  | Some x => raise x
  | None => ret tt
  end.

Definition load_csl (filename : string) (progress_callback : option callback)
  : M unit :=
  PyFile.getsize filename ;;
  text <- PyFile.read filename ;;
  let lines := PyFile.readlines text in
  let total_lines := length lines in
  let '(rows, pending) := csv.reader lines in
  match rows with
  | [] => raise_pending pending
  | first_line :: rest =>
      processed_lines <-
        (match first_line with
         | first :: _ =>
             if negb (startswith first "#") then
               r <- lift (Record.from_list (map strip first_line)) ;;
               add_or_merge_record r ;;
               report progress_callback
                 (percent 1 (Z.of_nat total_lines)) ;;
               ret 1%nat
             else ret 0%nat
         | [] => ret 0%nat
         end) ;;
      csl_rows progress_callback total_lines processed_lines rest ;;
      raise_pending pending
  end.

(** ** The EDI loader *)

Definition field_at (fields : list string) (i : nat) : string :=
  default "" (fields !! i).

(** First pass: the remarks, as a map from callsign to comment *)
Fixpoint edi_comments (progress_callback : option callback) (total_lines : nat)
  (processed_lines : nat) (in_remarks : bool) (comments : gmap string string)
  (lines : list string) : M (gmap string string) :=
  match lines with
  | [] => ret comments
  | line :: rest =>
      let line := strip line in
      let processed_lines := S processed_lines in
      report progress_callback
        (percent (Z.of_nat processed_lines) (Z.of_nat total_lines * 2)) ;;
      if startswith line "[Remarks]" then
        edi_comments progress_callback total_lines processed_lines true
          comments rest
      else if startswith line "[QSORecords;" then
        edi_comments progress_callback total_lines processed_lines false
          comments rest
      else
        let fields := split ";" line in
        let comments :=
          if in_remarks && truthy line && (4 <=? length fields)%nat
          then <[strip (field_at fields 2) := strip (field_at fields 3)]> comments
          else comments in
        edi_comments progress_callback total_lines processed_lines in_remarks
          comments rest
  end.

Definition edi_progress (processed_lines total_lines : nat) : result Q :=
  match percent (Z.of_nat processed_lines) (Z.of_nat total_lines * 2) with
  | Ok q => Ok (PyNum.min (50 + q)%Q 100)
  | Raise e => Raise e
  end.

(** Second pass: the contacts *)
Fixpoint edi_qsos (progress_callback : option callback) (total_lines : nat)
  (processed_lines : nat) (in_qso_section : bool)
  (comments : gmap string string) (lines : list string) : M unit :=
  match lines with
  | [] => ret tt
  | line :: rest =>
      let line := strip line in
      let processed_lines := S processed_lines in
      report progress_callback (edi_progress processed_lines total_lines) ;;
      if startswith line "[QSORecords;" then
        edi_qsos progress_callback total_lines processed_lines true
          comments rest
      else if startswith line "[END;" then ret tt
      else
        let fields := split ";" line in
        (if in_qso_section && truthy line && (10 <=? length fields)%nat
         then add_or_merge_record
                (mkRecord (strip (field_at fields 2))
                   (strip (field_at fields 9))
                   (strip (field_at fields 8))
                   (default "" (comments !! strip (field_at fields 2))))
         else ret tt) ;;
        edi_qsos progress_callback total_lines processed_lines in_qso_section
          comments rest
  end.

Definition load_edi (filename : string) (progress_callback : option callback)
  : M unit :=
  PyFile.getsize filename ;;
  text <- PyFile.read filename ;;
  let lines := PyFile.readlines text in
  let total_lines := length lines in
  comments <- edi_comments progress_callback total_lines 0 false ∅ lines ;;
  edi_qsos progress_callback total_lines 0 false comments lines.

(** ** The ADIF loader *)

Definition extract_adif_field (qso field : string) : string :=
  let field_start := find (upper qso) ("<" +:+ upper field) in
  if field_start =? -1 then ""
  else
    let field_end := find_from qso ">" (Z.to_nat field_start) in
    if field_end =? -1 then ""
    else
      match split ":" (slice qso field_start field_end) !! 1%nat with
      | None => ""
      | Some token =>
          match int (default "" (head (split ":" token))) with
          | None => ""
          | Some length =>
              let value_start := field_end + 1 in
              strip (slice qso value_start (value_start + length))
          end
      end.

Definition adif_progress (processed_length total_length : Z) : result Q :=
  match percent processed_length total_length with
  | Ok q => Ok (PyNum.min q 100)
  | Raise e => Raise e
  end.

(** The [while qsos.strip()] loop. Every turn removes at least the five
    characters of an end-of-record mark from [qsos], so a [fuel] above the
    length of [qsos] is never used up. *)
Fixpoint adif_loop (fuel : nat) (progress_callback : option callback)
  (total_length processed_length : Z) (qsos : string) : M unit :=
  match fuel with
  | O => ret tt
  | S fuel' =>
      if truthy (strip qsos) then
        let eor_index := find qsos "<EOR>" in
        if eor_index =? -1 then ret tt
        else
          let qso := strip (slice_to qsos eor_index) in
          let qsos := strip (slice_from qsos (eor_index + 5)) in
          let processed_length := processed_length + (eor_index + 5) in
          report progress_callback
            (adif_progress processed_length total_length) ;;
          let record :=
            mkRecord (extract_adif_field qso "CALL")
              (extract_adif_field qso "GRIDSQUARE")
              (extract_adif_field qso "QTH")
              (extract_adif_field qso "COMMENT") in
          (if truthy (callsign record) then add_or_merge_record record
           else ret tt) ;;
          adif_loop fuel' progress_callback total_length processed_length qsos
      else ret tt
  end.

Definition load_adif (filename : string) (progress_callback : option callback)
  : M unit :=
  PyFile.getsize filename ;;
  content <- PyFile.read filename ;;
  let qsos :=
    if contains content "<EOH>"
    then slice_from content (find content "<EOH>" + 5)
    else content in
  let total_length := Z.of_nat (String.length qsos) in
  adif_loop (S (String.length qsos)) progress_callback total_length 0 qsos.

(** ** Element trees *)

Module ET.

(** An element: its tag (with the namespace in braces), its text, which
    is [None] when the element has none, and its children. *)
#[warnings="-register-all"] Inductive Element :=
| Elem (tag : string) (text : option string) (children : list Element).

Definition tag (e : Element) : string :=
  match e with Elem t _ _ => t end.
Definition text (e : Element) : option string :=
  match e with Elem _ x _ => x end.
Definition children (e : Element) : list Element :=
  match e with Elem _ _ c => c end.

Definition children_named (name : string) (e : Element) : list Element :=
  List.filter (fun c => String.eqb (tag c) name) (children e).

(** [e.find(name)]: the first child with that tag *)
Definition find (e : Element) (name : string) : option Element :=
  head (children_named name e).

(** [e.findall(name)] *)
Definition findall (e : Element) (name : string) : list Element :=
  children_named name e.

Fixpoint select (path : list string) (es : list Element) : list Element :=
  match path with
  | [] => es
  | name :: rest => select rest (flat_map (children_named name) es)
  end.

(** [e.find("a/b/c")]: the first element the path reaches, in document
    order *)
Definition find_path (e : Element) (path : list string) : option Element :=
  head (select path [e]).

(** The elements below [e], in document order *)
Fixpoint descendants (e : Element) : list Element :=
  match e with
  | Elem _ _ cs => flat_map (fun c => c :: descendants c) cs
  end.

(** [e.findall(".//name")] *)
Definition findall_below (e : Element) (name : string) : list Element :=
  List.filter (fun c => String.eqb (tag c) name) (descendants e).

End ET.

(** ** The Minos loader and the generic loader *)

Definition ns : string := "{minos:iq:rpc}".
Definition ns_client : string := "{minos:client}".

(** [qso_data]: keys and values are element texts, either of which may be
    [None]. *)
Definition member_entry (qso_data : gmap (option string) (option string))
  (member : ET.Element) : gmap (option string) (option string) :=
  match ET.find member (ns +:+ "name"), ET.find member (ns +:+ "value") with
  | Some name_elem, Some value_elem =>
      match ET.children value_elem with
      | child :: _ => <[ET.text name_elem := ET.text child]> qso_data
      | [] => qso_data
      end
  | _, _ => qso_data
  end.

Definition collect_members (params : ET.Element)
  : gmap (option string) (option string) :=
  fold_left member_entry (ET.findall params (ns +:+ "member")) ∅.

(** [qso_data.get(key)] *)
Definition get (qso_data : gmap (option string) (option string))
  (key : string) : option string :=
  match qso_data !! Some key with
  | Some v => v
  | None => None
  end.

(** [qso_data.get(key, '').strip()]: a key that is present with the value
    [None] has no [strip]. *)
Definition get_stripped (qso_data : gmap (option string) (option string))
  (key : string) : result string :=
  match qso_data !! Some key with
  | Some (Some s) => Ok (strip s)
  | Some None =>
      Raise (AttributeError "'NoneType' object has no attribute 'strip'")
  | None => Ok (strip "")
  end.

Definition is_truthy (v : option string) : bool :=
  match v with
  | Some s => truthy s
  | None => false
  end.

Definition combined_comments
  (qso_data : gmap (option string) (option string)) : list string :=
  (if is_truthy (get qso_data "commentsTx")
   then [default "" (get qso_data "commentsTx")] else [])
  ++ (if is_truthy (get qso_data "commentsRx")
         && negb (bool_decide (get qso_data "commentsRx"
                               = get qso_data "commentsTx"))
      then [default "" (get qso_data "commentsRx")] else []).

(** The parameter struct of an [iq] element that is a [MinosLogQSO] call;
    [None] stands for each [continue] of the loop and for a call without a
    parameter struct. *)
Definition qso_params (iq : ET.Element) : option ET.Element :=
  match ET.find iq (ns +:+ "query") with
  | None => None
  | Some query =>
      match ET.find query (ns +:+ "methodCall") with
      | None => None
      | Some method_call =>
          match ET.find method_call (ns +:+ "methodName") with
          | None => None
          | Some method_name =>
              if bool_decide (ET.text method_name = Some "MinosLogQSO")
              then ET.find_path method_call
                     [ns +:+ "params"; ns +:+ "param"; ns +:+ "value";
                      ns +:+ "struct"]
              else None
          end
      end
  end.

Definition minos_progress (processed_iqs total_iqs : nat) : result Q :=
  match percent (Z.of_nat processed_iqs) (Z.of_nat total_iqs) with
  | Ok q => Ok (PyNum.min q 100)
  | Raise e => Raise e
  end.

(** The [for iq in ...] loop; the result is [qso_count]. *)
Fixpoint minos_iqs (progress_callback : option callback) (total_iqs : nat)
  (processed_iqs qso_count : nat) (iqs : list ET.Element) : M nat :=
  match iqs with
  | [] => ret qso_count
  | iq :: rest =>
      let processed_iqs := S processed_iqs in
      report progress_callback (minos_progress processed_iqs total_iqs) ;;
      qso_count <-
        (match qso_params iq with
         | None => ret qso_count
         | Some params =>
             let qso_data := collect_members params in
             if is_truthy (get qso_data "callRx") then
               callsign <- lift (get_stripped qso_data "callRx") ;;
               locator <- lift (get_stripped qso_data "locRx") ;;
               exchange <- lift (get_stripped qso_data "exchangeRx") ;;
               add_or_merge_record
                 (mkRecord callsign locator exchange
                    (join " | " (combined_comments qso_data))) ;;
               ret (S qso_count)
             else ret qso_count
         end) ;;
      minos_iqs progress_callback total_iqs processed_iqs qso_count rest
  end.

(** The cleaned text of a Minos file whose stream element starts at
    [stream_start]: what precedes the element is dropped and a missing
    closing tag is added. *)
Definition minos_clean_content (content : string) (stream_start : Z) : string :=
  let clean_content := slice_from content stream_start in
  if negb (contains clean_content "</stream:stream>")
  then clean_content +:+ "</stream:stream>"
  else clean_content.

(** What reaches the caller of [load_minos] when the document has no [iq]
    element: the [ValueError] of the loader, rewrapped by its last
    handler. *)
Definition EmptyResultError : exn :=
  IOError "Failed to load Minos file: No QSO records found in file".

(** An [iq] element that the loop counts in [qso_count]: a [MinosLogQSO]
    call with a parameter struct whose [callRx] is a non-empty text. *)
Definition qualifies (iq : ET.Element) : bool :=
  match qso_params iq with
  | Some params => is_truthy (get (collect_members params) "callRx")
  | None => false
  end.

Definition SUPPORTED_FORMATS : list string :=
  [".csl"; ".edi"; ".adi"; ".adif"; ".minos"].

Section Loaders.

(** [ET.fromstring]: the tree of a well-formed document, or
    [ParseError]. *)
Variable fromstring : string -> result ET.Element.

Definition load_minos (filename : string)
  (progress_callback : option callback) : M unit :=
  try_except
    (PyFile.getsize filename ;;
     content <- PyFile.read filename ;;
     let stream_start := find content "<stream:stream" in
     if stream_start =? -1 then
       raise (ValueError "Invalid Minos file format: No stream element found")
     else
       let clean_content := minos_clean_content content stream_start in
       root <- try_except (lift (fromstring clean_content))
                 (fun e =>
                    match e with
                    | ParseError m =>
                        raise (ValueError ("Invalid XML in Minos file: " +:+ m))
                    | _ => raise e
                    end) ;;
       let iqs := ET.findall_below root (ns_client +:+ "iq") in
       let total_iqs := length iqs in
       if (total_iqs =? 0)%nat then
         raise (ValueError "No QSO records found in file")
       else
         _ <- minos_iqs progress_callback total_iqs 0 0 iqs ;;
         ret tt)
    (fun e =>
       match e with
       | FileNotFoundError _ => raise e
       | ParseError m =>
           raise (ValueError ("Failed to parse Minos file: " +:+ m))
       | _ => raise (IOError ("Failed to load Minos file: " +:+ str_exn e))
       end).

(** [bounded_progress], the wrapper that [load_file] hands to the
    loaders *)
Definition bounded_progress (progress_callback : option callback)
  : callback :=
  fun percentage =>
    match progress_callback with
    | Some cb => cb (PyNum.min (PyNum.max percentage 0) 100)
    | None => ret tt
    end.

Definition load_file (filepath : string)
  (progress_callback : option callback) : M unit :=
  present <- PyFile.exists_ filepath ;;
  if negb present then
    raise (FileNotFoundError ("File not found: " +:+ filepath))
  else
    let extension := lower (PyFile.suffix filepath) in
    if negb (existsb (String.eqb extension) SUPPORTED_FORMATS) then
      raise (ValueError ("Unsupported file format: " +:+ extension))
    else
      PyFile.getsize filepath ;;
      let bounded := Some (bounded_progress progress_callback) in
      (if String.eqb extension ".csl" then load_csl filepath bounded
       else if String.eqb extension ".edi" then load_edi filepath bounded
       else if String.eqb extension ".adi" || String.eqb extension ".adif"
            then load_adif filepath bounded
       else if String.eqb extension ".minos" then load_minos filepath bounded
       else ret tt) ;;
      set_current_file filepath ;;
      set_has_unsaved_changes true ;;
      notify_observers.

(** The structural defects of a load of [filepath] in the world [w], each
    with the exception it makes [load_file] raise: the path is missing,
    the extension is not supported, a Minos file has no stream marker, a
    Minos file is not well-formed XML. *)
Inductive structural_failure (w : World) (filepath : string) : exn -> Prop :=
| missing_path :
    disk w !! filepath = None ->
    structural_failure w filepath
      (FileNotFoundError ("File not found: " +:+ filepath))
| unsupported_extension text :
    disk w !! filepath = Some text ->
    existsb (String.eqb (lower (PyFile.suffix filepath))) SUPPORTED_FORMATS
    = false ->
    structural_failure w filepath
      (ValueError ("Unsupported file format: "
                   +:+ lower (PyFile.suffix filepath)))
| no_stream_marker text :
    disk w !! filepath = Some text ->
    lower (PyFile.suffix filepath) = ".minos" ->
    find (PyFile.universal_newlines text) "<stream:stream" = -1 ->
    structural_failure w filepath
      (IOError ("Failed to load Minos file: "
                +:+ "Invalid Minos file format: No stream element found"))
| unparsable_xml text m :
    disk w !! filepath = Some text ->
    lower (PyFile.suffix filepath) = ".minos" ->
    find (PyFile.universal_newlines text) "<stream:stream" <> -1 ->
    fromstring
      (minos_clean_content (PyFile.universal_newlines text)
         (find (PyFile.universal_newlines text) "<stream:stream"))
    = Raise (ParseError m) ->
    structural_failure w filepath
      (IOError ("Failed to load Minos file: "
                +:+ "Invalid XML in Minos file: " +:+ m)).

End Loaders.

(** The caller's progress sink: it records what it is given. *)
Definition sink : callback :=
  fun percentage w =>
    (Ok tt, mkWorld (self w) (notified w) (delivered w ++ [percentage])
              (disk w) (faults w)).

(** ** Clients of the engine

    What a caller can do to the engine between loads and saves: the policy
    setters, the observer registration, the reconciliation entry point and
    the reset. *)

Inductive Call :=
| SetMergeMode (mode : MergeMode)
| SetRemoveCallsignOnly (value : bool)
| AddObserver (callback : nat)
| AddOrMerge (r : ContestRecord)
| Reset.

Definition perform (c : Call) : M unit :=
  match c with
  | SetMergeMode mode => set_merge_mode mode
  | SetRemoveCallsignOnly value => set_remove_callsign_only value
  | AddObserver callback => add_observer callback
  | AddOrMerge r => add_or_merge_record r
  | Reset => reset
  end.

Fixpoint run (calls : list Call) : M unit :=
  match calls with
  | [] => ret tt
  | c :: rest => perform c ;; run rest
  end.

(** A call that leaves the Keep-All policy in force *)
Definition keeps_all (c : Call) : bool :=
  match c with
  | SetMergeMode KEEP_RECENT | SetMergeMode SMART_MERGE => false
  | _ => true
  end.

(** No two positions of the store hold value-equal records. *)
Definition no_value_equal_pair (l : list ContestRecord) : Prop :=
  forall i j ri rj,
    l !! i = Some ri -> l !! j = Some rj -> i <> j ->
    Record.eqb ri rj = false.

(** A fresh engine in an environment with the given files *)
Definition fresh_world (files : gmap string string) : World :=
  mkWorld init [] [] files ∅.

(** The guards of the entry point: the record has a callsign and the
    callsign-only filter does not drop it. *)
Definition accepted (s : ContestLogManager) (r : ContestRecord) : bool :=
  truthy (callsign r)
  && negb (remove_callsign_only s && negb (Record.has_more_than_callsign r)).

(** The world once the entry point has stored [l], set the flag and called
    the observers *)
Definition committed (w : World) (l : list ContestRecord) : World :=
  mkWorld
    (mkManager l (current_file (self w)) (merge_mode (self w))
       (remove_callsign_only (self w)) (observers (self w)) true)
    (notified w ++ observers (self w)) (delivered w) (disk w) (faults w).

(** ** Sample data *)

Definition g4ctp : ContestRecord := mkRecord "G4ctp" "IO91" "" "first".
Definition m0xyz : ContestRecord := mkRecord "M0XYZ" "JO01" "59" "".
Definition g4ctp_update : ContestRecord := mkRecord "g4CTP" "  " "59001" "".
Definition g4ctp_padded : ContestRecord := mkRecord "g4ctp" " IO91 " "" "first ".
Definition no_callsign : ContestRecord := mkRecord "" "IO91" "59001" "heard".
Definition blank_callsign : ContestRecord := mkRecord " " "IO91" "59001" "".

Definition smart_world : World :=
  mkWorld (mkManager [m0xyz; g4ctp] None SMART_MERGE true [1%nat] false)
    [] [] ∅ ∅.

Definition recent_world : World :=
  mkWorld (mkManager [] None KEEP_RECENT false [] false) [] [] ∅ ∅.

Definition observed_world : World :=
  mkWorld (mkManager [g4ctp] None KEEP_ALL true [1%nat; 2%nat] false)
    [1%nat] [] ∅ ∅.

(** ** Progress sequences

    [ascending lo hi vs]: the values start at or above [lo], never
    decrease and stay at or below [hi]. [emits lo hi w w'] says that from
    [w] to [w'] the sink received such a sequence. *)

Fixpoint ascending (lo hi : Q) (vs : list Q) : Prop :=
  match vs with
  | [] => True
  | v :: rest => (lo <= v)%Q /\ (v <= hi)%Q /\ ascending v hi rest
  end.

Definition emits (lo hi : Q) (w w' : World) : Prop :=
  exists vs, delivered w' = delivered w ++ vs /\ ascending lo hi vs.

(** The percentage [a / b * 100] and the clamping of [bounded_progress] *)
Definition pct (a b : Z) : Q := (inject_Z a / inject_Z b * 100)%Q.

Definition clamp (q : Q) : Q := PyNum.min (PyNum.max q 0) 100.

(** The sink is not called: the delivered values are the same. *)
Definition silent (w w' : World) : Prop := delivered w' = delivered w.

(** The callback that [load_file] passes to a loader when the caller's
    sink is [sink] *)
Definition bounded_sink : option callback :=
  Some (bounded_progress (Some sink)).

(** ** The header of a saved file, line by line, and the record that the
    second line reads as *)

Definition banner_line : string :=
  "# Minos CSL Utility by G4CTP v0.7" +:+ String PyFile.LF EmptyString.

Definition legend_line : string :=
  "# <Callsign>, <Locator>, <Exchange>, <Comment>"
  +:+ String PyFile.LF EmptyString.

Definition legend_record : ContestRecord :=
  mkRecord "# <Callsign>" "<Locator>" "<Exchange>" "<Comment>".

(** An EDI log with one remark and one contact, and an ADIF log with one
    contact *)
Definition sample_edi_text : string :=
  "[Remarks]" +:+ String PyFile.LF
  "CALL;X;G4CTP;Nice contact" +:+ String PyFile.LF
  "[QSORecords;1]" +:+ String PyFile.LF
  "240101;1200;G4CTP;1;59;001;59;002;;IO91;;;;" +:+ String PyFile.LF
  "[END;1]" +:+ String PyFile.LF EmptyString.

Definition sample_adif_text : string := "<CALL:5>G4CTP<COMMENT:4>Test<EOR>".

Definition sample_files : gmap string string :=
  {[ "log.edi" := sample_edi_text; "log.adi" := sample_adif_text ]}.

(** ** Outcomes of computations

    [raises_only P m]: whatever [m] raises satisfies [P].
    [relates R m]: [m] takes every world to an [R]-related one, whether it
    returns or raises. [returns_normally cb]: the callback, if there is
    one, never raises. *)

Definition raises_only {A} (P : exn -> Prop) (m : M A) : Prop :=
  forall w e, fst (m w) = Raise e -> P e.

Definition relates {A} (R : World -> World -> Prop) (m : M A) : Prop :=
  forall w, R w (snd (m w)).

Definition returns_normally (progress_callback : option callback) : Prop :=
  forall cb, progress_callback = Some cb ->
             forall q w, fst (cb q w) = Ok tt.

Definition minos_loop_error (e : exn) : Prop :=
  e = AttributeError "'NoneType' object has no attribute 'strip'"
  \/ e = ZeroDivisionError "division by zero".

(** A Minos document with one [iq] element that is not a QSO, and a parser
    that knows this document only *)
Definition sample_minos_text : string :=
  "<?xml version='1.0'?><stream:stream xmlns:stream='http://minos.goodey.org.uk/streams' xmlns='minos:client'><iq type='set'><query xmlns='minos:iq:rpc'><methodCall><methodName>MinosLogComment</methodName></methodCall></query></iq>".

Definition sample_minos_root : ET.Element :=
  ET.Elem "{http://minos.goodey.org.uk/streams}stream" None
    [ET.Elem "{minos:client}iq" None
       [ET.Elem "{minos:iq:rpc}query" None
          [ET.Elem "{minos:iq:rpc}methodCall" None
             [ET.Elem "{minos:iq:rpc}methodName" (Some "MinosLogComment") []]]]].

Definition sample_fromstring (s : string) : result ET.Element :=
  if String.eqb s
       (minos_clean_content sample_minos_text
          (find sample_minos_text "<stream:stream"))
  then Ok sample_minos_root
  else Raise (ParseError "syntax error: line 1, column 0").

Definition sample_minos_world : World :=
  mkWorld (mkManager [g4ctp] None KEEP_ALL false [1%nat] true) [] []
    {[ "log.minos" := sample_minos_text; "notes.txt" := "G4CTP"; "bad.minos" := "<iq/>" ]} ∅.

Definition call_keys (l : list ContestRecord) : list string :=
  map (fun r => upper (callsign r)) l.

(** A call that does not select the Keep-All policy *)
Definition avoids_keep_all (c : Call) : bool :=
  match c with
  | SetMergeMode KEEP_ALL => false
  | _ => true
  end.

(** [ContestLogUI.truncate_path] *)
Definition truncate_path (path : string) (max_length : Z) : string :=
  if Z.of_nat (String.length path) <=? max_length then path
  else "..." +:+ slice_from path (- (max_length - 3)).

(** A relation between the world before and the world after that is kept
    by whatever leaves the engine state alone, by the progress callback
    and by the three steps that end a load, and that holds across
    [add_or_merge_record] for records whose callsign is stripped *)
Record load_invariant (R : World -> World -> Prop)
  (progress_callback : option callback) : Prop := {
  inv_refl : forall w, R w w;
  inv_trans : forall w1 w2 w3, R w1 w2 -> R w2 w3 -> R w1 w3;
  inv_frame : forall w w', self w' = self w -> R w w';
  inv_callback :
    forall cb, progress_callback = Some cb -> forall q, relates R (cb q);
  inv_add :
    forall r, strip (callsign r) = callsign r ->
              relates R (add_or_merge_record r)
}.

(** A progress callback that does not touch the engine *)
Definition leaves_engine_alone (progress_callback : option callback) : Prop :=
  forall cb, progress_callback = Some cb ->
             forall q w, self (snd (cb q w)) = self w.

(** No stored callsign is blank. *)
Definition no_blank_callsign (l : list ContestRecord) : Prop :=
  Forall (fun x => strip (callsign x) <> "") l.




(** A record with nothing but a callsign *)
Definition callsign_only : ContestRecord := mkRecord "M0ABC" " " "" "".

(** A Minos contact with a callsign whose locator element has no text *)
Definition sample_qso_iq : ET.Element :=
  ET.Elem "{minos:client}iq" None
    [ET.Elem "{minos:iq:rpc}query" None
       [ET.Elem "{minos:iq:rpc}methodCall" None
          [ET.Elem "{minos:iq:rpc}methodName" (Some "MinosLogQSO") [];
           ET.Elem "{minos:iq:rpc}params" None
             [ET.Elem "{minos:iq:rpc}param" None
                [ET.Elem "{minos:iq:rpc}value" None
                   [ET.Elem "{minos:iq:rpc}struct" None
                      [ET.Elem "{minos:iq:rpc}member" None
                         [ET.Elem "{minos:iq:rpc}name" (Some "callRx") [];
                          ET.Elem "{minos:iq:rpc}value" None
                            [ET.Elem "{minos:iq:rpc}string" (Some "G4CTP") []]];
                       ET.Elem "{minos:iq:rpc}member" None
                         [ET.Elem "{minos:iq:rpc}name" (Some "locRx") [];
                          ET.Elem "{minos:iq:rpc}value" None
                            [ET.Elem "{minos:iq:rpc}string" None []]]]]]]]]].

(* ================================================================= *)
(** * Properties *)

(** ** Records and the list operations *)

Lemma record_eqb_refl r : Record.eqb r r = true.
Proof.
  unfold Record.eqb. now rewrite !String.eqb_refl.
Qed.

Lemma record_eqb_sym r s : Record.eqb r s = Record.eqb s r.
Proof.
  unfold Record.eqb.
  now rewrite (String.eqb_sym (upper (callsign r))),
    (String.eqb_sym (strip (locator r))),
    (String.eqb_sym (strip (exchange r))),
    (String.eqb_sym (strip (comment r))).
Qed.

Lemma record_eqb_same_call new_record item x :
  Record.eqb item x = true ->
  Record.same_call new_record x = true ->
  Record.same_call new_record item = true.
Proof.
  unfold Record.eqb, Record.same_call. intros He Hs.
  apply andb_true_iff in He as [He _]. apply andb_true_iff in He as [He _].
  apply andb_true_iff in He as [He _].
  apply String.eqb_eq in He. apply String.eqb_eq in Hs.
  apply String.eqb_eq. congruence.
Qed.

(** The first record that the comprehension keeps splits the store. *)
Lemma filter_first_split new_record l x xs :
  List.filter (Record.same_call new_record) l = x :: xs ->
  exists pre post : list ContestRecord,
    l = pre ++ x :: post
    /\ Forall (fun r => Record.same_call new_record r = false) pre
    /\ Record.same_call new_record x = true.
Proof.
  induction l as [|a l IH]; simpl; [discriminate|].
  destruct (Record.same_call new_record a) eqn:Ha.
  - intros [= -> _]. exists [], l. auto.
  - intros H. destruct (IH H) as (pre & post & -> & Hpre & Hx).
    exists (a :: pre), post. repeat split; auto.
Qed.

Lemma filter_none new_record l :
  List.filter (Record.same_call new_record) l = [] <->
  Forall (fun r => Record.same_call new_record r = false) l.
Proof.
  induction l as [|a l IH]; simpl.
  - split; auto.
  - destruct (Record.same_call new_record a) eqn:Ha.
    + split; [discriminate|]. intros H. inversion H. congruence.
    + rewrite IH. split; [auto|]. intros H. now inversion H.
Qed.

Section FirstMatch.

Variables (new_record x : ContestRecord) (post : list ContestRecord).
Hypothesis Hx : Record.same_call new_record x = true.

Lemma no_earlier_equal pre :
  Forall (fun r => Record.same_call new_record r = false) pre ->
  Forall (fun r => Record.eqb r x = false) pre.
Proof.
  intros Hpre. eapply Forall_impl; [exact Hpre|]. intros a Ha. simpl in *.
  destruct (Record.eqb a x) eqn:E; auto.
  pose proof (record_eqb_same_call new_record a x E Hx). congruence.
Qed.

Lemma filter_at_first pre :
  Forall (fun r => Record.same_call new_record r = false) pre ->
  List.filter (Record.same_call new_record) (pre ++ x :: post)
  = x :: List.filter (Record.same_call new_record) post.
Proof.
  induction 1 as [|a l Ha _ IH]; simpl.
  - now rewrite Hx.
  - now rewrite Ha.
Qed.

Lemma index_at_first pre :
  Forall (fun r => Record.same_call new_record r = false) pre ->
  PyList.index (pre ++ x :: post) x = Some (length pre).
Proof.
  intros Hpre. apply no_earlier_equal in Hpre.
  induction Hpre as [|a l Ha _ IH]; simpl.
  - now rewrite record_eqb_refl.
  - rewrite Ha, IH. reflexivity.
Qed.

Lemma remove_at_first pre :
  Forall (fun r => Record.same_call new_record r = false) pre ->
  PyList.remove (pre ++ x :: post) x = Some (pre ++ post).
Proof.
  intros Hpre. apply no_earlier_equal in Hpre.
  induction Hpre as [|a l Ha _ IH]; simpl.
  - now rewrite record_eqb_refl.
  - rewrite Ha, IH. reflexivity.
Qed.

End FirstMatch.

(** ** The reconciliation entry point *)

Ltac unfold_monad :=
  unfold add_or_merge_record, reset, set_records, set_has_unsaved_changes,
    set_current_file, set_merge_mode, set_remove_callsign_only, add_observer,
    notify_observers, put_self, get_self, bind, ret, raise, lift,
    committed in *.

Lemma rejected_unchanged w r :
  accepted (self w) r = false -> add_or_merge_record r w = (Ok tt, w).
Proof.
  unfold accepted. intros H. unfold_monad. simpl.
  destruct (truthy (callsign r)); simpl in *; [|reflexivity].
  apply negb_false_iff in H. now rewrite H.
Qed.

Lemma accepted_guards w r :
  accepted (self w) r = true ->
  truthy (callsign r) = true
  /\ remove_callsign_only (self w) && negb (Record.has_more_than_callsign r) = false.
Proof.
  unfold accepted. intros H. apply andb_true_iff in H as [H1 H2].
  apply negb_true_iff in H2. auto.
Qed.

Lemma keep_all_step w r :
  accepted (self w) r = true -> merge_mode (self w) = KEEP_ALL ->
  add_or_merge_record r w
  = (Ok tt, committed w (if PyList.contains (records (self w)) r
                         then records (self w)
                         else records (self w) ++ [r])).
Proof.
  intros Ha Hm. apply accepted_guards in Ha as [H1 H2].
  destruct w as [[l cf mm rco obs dirty] nt dl dk fl]; simpl in *; subst.
  unfold_monad. simpl. rewrite H1, H2. simpl.
  destruct (PyList.contains l r); reflexivity.
Qed.

Lemma keep_recent_step_new w r :
  accepted (self w) r = true -> merge_mode (self w) = KEEP_RECENT ->
  Forall (fun x => Record.same_call r x = false) (records (self w)) ->
  add_or_merge_record r w = (Ok tt, committed w (records (self w) ++ [r])).
Proof.
  intros Ha Hm Hn. apply accepted_guards in Ha as [H1 H2].
  apply filter_none in Hn.
  destruct w as [[l cf mm rco obs dirty] nt dl dk fl]; simpl in *; subst.
  unfold_monad. simpl. rewrite H1, H2, Hn. reflexivity.
Qed.

Lemma keep_recent_step_match w r pre x post :
  accepted (self w) r = true -> merge_mode (self w) = KEEP_RECENT ->
  records (self w) = pre ++ x :: post ->
  Forall (fun x => Record.same_call r x = false) pre ->
  Record.same_call r x = true ->
  add_or_merge_record r w = (Ok tt, committed w (pre ++ post ++ [r])).
Proof.
  intros Ha Hm Hl Hpre Hx. apply accepted_guards in Ha as [H1 H2].
  destruct w as [[l cf mm rco obs dirty] nt dl dk fl]; simpl in *; subst.
  unfold_monad. simpl. rewrite H1, H2. simpl.
  rewrite (filter_at_first r x post Hx pre Hpre).
  rewrite (remove_at_first r x post Hx pre Hpre). simpl.
  now rewrite <- app_assoc.
Qed.

Lemma smart_merge_step_new w r :
  accepted (self w) r = true -> merge_mode (self w) = SMART_MERGE ->
  Forall (fun x => Record.same_call r x = false) (records (self w)) ->
  add_or_merge_record r w = (Ok tt, committed w (records (self w) ++ [r])).
Proof.
  intros Ha Hm Hn. apply accepted_guards in Ha as [H1 H2].
  apply filter_none in Hn.
  destruct w as [[l cf mm rco obs dirty] nt dl dk fl]; simpl in *; subst.
  unfold_monad. simpl. rewrite H1, H2, Hn. reflexivity.
Qed.

Lemma insert_at_first {A} (pre : list A) x y post :
  <[length pre := y]> (pre ++ x :: post) = pre ++ y :: post.
Proof.
  induction pre; simpl; [reflexivity|]. now rewrite IHpre.
Qed.

Lemma smart_merge_step_match w r pre x post :
  accepted (self w) r = true -> merge_mode (self w) = SMART_MERGE ->
  records (self w) = pre ++ x :: post ->
  Forall (fun x => Record.same_call r x = false) pre ->
  Record.same_call r x = true ->
  add_or_merge_record r w
  = (Ok tt, committed w (pre ++ merged_record x r :: post)).
Proof.
  intros Ha Hm Hl Hpre Hx. apply accepted_guards in Ha as [H1 H2].
  destruct w as [[l cf mm rco obs dirty] nt dl dk fl]; simpl in *; subst.
  unfold_monad. simpl. rewrite H1, H2. simpl.
  rewrite (filter_at_first r x post Hx pre Hpre).
  rewrite (index_at_first r x post Hx pre Hpre). simpl.
  now rewrite insert_at_first.
Qed.

Lemma truthy_true s : truthy s = true <-> s <> "".
Proof. destruct s; simpl; split; congruence. Qed.

Lemma accepted_iff s r :
  accepted s r = true <->
  callsign r <> ""
  /\ (remove_callsign_only s = true -> Record.has_more_than_callsign r = true).
Proof.
  unfold accepted. rewrite andb_true_iff, truthy_true, negb_true_iff.
  destruct (remove_callsign_only s), (Record.has_more_than_callsign r);
    simpl; intuition congruence.
Qed.

Lemma same_call_true new_record r :
  Record.same_call new_record r = true <->
  upper (callsign r) = upper (callsign new_record).
Proof. apply String.eqb_eq. Qed.

Lemma same_call_false new_record r :
  Record.same_call new_record r = false <->
  upper (callsign r) <> upper (callsign new_record).
Proof. apply String.eqb_neq. Qed.

Lemma not_same_call_Forall new_record (l : list ContestRecord) :
  Forall (fun r => upper (callsign r) <> upper (callsign new_record)) l ->
  Forall (fun r => Record.same_call new_record r = false) l.
Proof.
  intros H. eapply Forall_impl; [exact H|]. intros r. apply same_call_false.
Qed.

(** Every accepted record is committed: the call returns, and only the
    store, the flag and the notification log change. *)
Lemma accepted_committed w r :
  accepted (self w) r = true ->
  exists l, add_or_merge_record r w = (Ok tt, committed w l).
Proof.
  intros Ha.
  destruct (List.filter (Record.same_call r) (records (self w))) as [|x xs] eqn:Hf.
  - apply filter_none in Hf.
    destruct (merge_mode (self w)) eqn:Hm; eexists.
    + now apply keep_all_step.
    + now apply keep_recent_step_new.
    + now apply smart_merge_step_new.
  - apply filter_first_split in Hf as (pre & post & Hl & Hpre & Hx).
    destruct (merge_mode (self w)) eqn:Hm; eexists.
    + now apply keep_all_step.
    + eapply keep_recent_step_match; eauto.
    + eapply smart_merge_step_match; eauto.
Qed.

Lemma add_or_merge_record_returns w r :
  fst (add_or_merge_record r w) = Ok tt.
Proof.
  destruct (accepted (self w) r) eqn:Ha.
  - destruct (accepted_committed w r Ha) as [l ->]. reflexivity.
  - now rewrite rejected_unchanged.
Qed.

(** C2. Smart-Merge, for a record that reaches the policy (its callsign
    is not empty and the callsign-only filter does not drop it). If the
    store is [pre ++ existing :: post], where no callsign in [pre] equals
    the incoming one in upper case and [existing]'s does, the new store is
    [pre], then the merged record, then [post]: the position is kept, the
    merged callsign is [existing]'s as it was written, and each of locator,
    exchange and comment is the incoming value when that value is non-blank
    after stripping and [existing]'s value otherwise. If no stored callsign
    matches, the incoming record is appended. *)
Theorem smart_merge_first_match w new_record :
  merge_mode (self w) = SMART_MERGE ->
  callsign new_record <> "" ->
  (remove_callsign_only (self w) = true ->
   Record.has_more_than_callsign new_record = true) ->
  let stored := records (self (snd (add_or_merge_record new_record w))) in
  (forall (pre post : list ContestRecord) existing,
     records (self w) = pre ++ existing :: post ->
     Forall (fun r => upper (callsign r) <> upper (callsign new_record)) pre ->
     upper (callsign existing) = upper (callsign new_record) ->
     stored =
       pre ++ mkRecord (callsign existing)
                (if truthy (strip (locator new_record))
                 then locator new_record else locator existing)
                (if truthy (strip (exchange new_record))
                 then exchange new_record else exchange existing)
                (if truthy (strip (comment new_record))
                 then comment new_record else comment existing)
           :: post)
  /\ (Forall (fun r => upper (callsign r) <> upper (callsign new_record))
        (records (self w)) ->
      stored = records (self w) ++ [new_record]).
Proof.
  intros Hm Hc Hf stored. subst stored.
  assert (Ha : accepted (self w) new_record = true) by (apply accepted_iff; auto).
  split.
  - intros pre post existing Hl Hpre Hx.
    apply not_same_call_Forall in Hpre. apply same_call_true in Hx.
    now rewrite (smart_merge_step_match w new_record pre existing post).
  - intros Hn. apply not_same_call_Forall in Hn.
    now rewrite smart_merge_step_new.
Qed.

Lemma smart_merge_first_match_witness :
  merge_mode (self smart_world) = SMART_MERGE
  /\ callsign g4ctp_update <> ""
  /\ records (self (snd (add_or_merge_record g4ctp_update smart_world)))
     = [m0xyz; mkRecord "G4ctp" "IO91" "59001" "first"].
Proof.
  split; [reflexivity|]. split; [discriminate|].
  refine (proj1 (smart_merge_first_match smart_world g4ctp_update
                   eq_refl _ _) [m0xyz] [] g4ctp eq_refl _ eq_refl).
  - discriminate.
  - intros _. reflexivity.
  - repeat constructor. discriminate.
Defined.

(** C3. Keep-Most-Recent: from an empty store, with the filter off,
    adding two records with non-empty callsigns that are equal in upper
    case leaves exactly the second record: it is the whole store, and it is
    the only record with that callsign. *)
Theorem keep_recent_last_wins w r1 r2 :
  records (self w) = [] ->
  merge_mode (self w) = KEEP_RECENT ->
  remove_callsign_only (self w) = false ->
  callsign r1 <> "" -> callsign r2 <> "" ->
  upper (callsign r1) = upper (callsign r2) ->
  let stored := records (self (snd (run [AddOrMerge r1; AddOrMerge r2] w))) in
  stored = [r2]
  /\ List.filter
       (fun r => String.eqb (upper (callsign r)) (upper (callsign r2))) stored
     = [r2].
Proof.
  intros Hl Hm Hf H1 H2 Hu stored.
  assert (Hs : stored = [r2]).
  { subst stored. simpl. unfold bind at 1. simpl.
    rewrite (keep_recent_step_new w r1); try (rewrite ?Hl; auto).
    2:{ apply accepted_iff. split; auto. intros ?. congruence. }
    unfold bind.
    rewrite (keep_recent_step_match (committed w ([] ++ [r1])) r2 [] r1 []);
      simpl; auto.
    - apply accepted_iff. split; auto. simpl. intros ?. congruence.
    - now apply same_call_true. }
  split; [exact Hs|]. rewrite Hs. simpl. now rewrite String.eqb_refl.
Qed.

Lemma keep_recent_last_wins_witness :
  upper (callsign g4ctp) = upper (callsign g4ctp_update)
  /\ records (self (snd (run [AddOrMerge g4ctp; AddOrMerge g4ctp_update]
                           recent_world)))
     = [g4ctp_update].
Proof.
  split; [reflexivity|].
  refine (proj1 (keep_recent_last_wins recent_world g4ctp g4ctp_update
                   eq_refl eq_refl eq_refl _ _ eq_refl)); discriminate.
Defined.

(** ** Keep-All *)

Lemma contains_false_iff (l : list ContestRecord) x :
  PyList.contains l x = false <->
  forall i ri, l !! i = Some ri -> Record.eqb ri x = false.
Proof.
  unfold PyList.contains. induction l as [|a l IH]; simpl.
  - split; [|auto]. intros _ i ri H. now rewrite lookup_nil in H.
  - rewrite orb_false_iff, IH. split.
    + intros [Ha Hl] [|i] ri; simpl; [congruence | apply Hl].
    + intros H. split; [apply (H 0%nat); reflexivity|].
      intros i ri Hi. apply (H (S i)). exact Hi.
Qed.

Lemma no_value_equal_pair_nil : no_value_equal_pair [].
Proof. intros i j ri rj H. now rewrite lookup_nil in H. Qed.

Lemma no_value_equal_pair_snoc l x :
  no_value_equal_pair l -> PyList.contains l x = false ->
  no_value_equal_pair (l ++ [x]).
Proof.
  intros Hl Hx i j ri rj Hi Hj Hij.
  rewrite contains_false_iff in Hx.
  apply lookup_snoc_Some in Hi as [[Hi1 Hi2] | [Hi1 Hi2]];
    apply lookup_snoc_Some in Hj as [[Hj1 Hj2] | [Hj1 Hj2]]; subst.
  - eapply Hl; eauto.
  - eapply Hx; eauto.
  - rewrite record_eqb_sym. eapply Hx; eauto.
  - lia.
Qed.

Lemma keep_all_invariant c w :
  keeps_all c = true ->
  merge_mode (self w) = KEEP_ALL ->
  no_value_equal_pair (records (self w)) ->
  fst (perform c w) = Ok tt
  /\ merge_mode (self (snd (perform c w))) = KEEP_ALL
  /\ no_value_equal_pair (records (self (snd (perform c w)))).
Proof.
  intros Hc Hm Hinv. destruct c as [mode|value|cb|r|]; simpl.
  - destruct mode; try discriminate. unfold_monad. simpl. auto.
  - unfold_monad. simpl. auto.
  - unfold_monad. simpl. auto.
  - destruct (accepted (self w) r) eqn:Ha.
    + rewrite keep_all_step by assumption. simpl. repeat split; auto.
      destruct (PyList.contains (records (self w)) r) eqn:Hin; auto.
      now apply no_value_equal_pair_snoc.
    + rewrite rejected_unchanged by assumption. auto.
  - unfold_monad. simpl.
    destruct (records (self w)); simpl; auto using no_value_equal_pair_nil.
Qed.

Lemma run_cons c calls w :
  run (c :: calls) w
  = match perform c w with
    | (Ok _, w') => run calls w'
    | (Raise e, w') => (Raise e, w')
    end.
Proof. reflexivity. Qed.

(** C4. Keep-All: a store that starts empty and is changed only by engine
    calls that leave the Keep-All policy in force (any filter setting,
    resets included) never holds two value-equal records. *)
Theorem keep_all_no_value_equal_pair calls w :
  records (self w) = [] ->
  merge_mode (self w) = KEEP_ALL ->
  forallb keeps_all calls = true ->
  no_value_equal_pair (records (self (snd (run calls w)))).
Proof.
  intros Hl Hm Hc.
  assert (Hinv : no_value_equal_pair (records (self w)))
    by (rewrite Hl; apply no_value_equal_pair_nil).
  clear Hl. revert w Hm Hinv.
  induction calls as [|c calls IH]; intros w Hm Hinv; [exact Hinv|].
  simpl in Hc. apply andb_true_iff in Hc as [Hc Hcs].
  destruct (keep_all_invariant c w Hc Hm Hinv) as (Hok & Hm' & Hinv').
  rewrite run_cons. destruct (perform c w) as [[[]|e] w']; simpl in *;
    [|discriminate].
  now apply IH.
Qed.

Lemma keep_all_no_value_equal_pair_witness :
  records (self (fresh_world ∅)) = []
  /\ records (self (snd (run [AddOrMerge g4ctp; SetRemoveCallsignOnly true;
                             AddOrMerge g4ctp_padded; AddOrMerge m0xyz]
                          (fresh_world ∅))))
     = [g4ctp; m0xyz]
  /\ no_value_equal_pair [g4ctp; m0xyz].
Proof.
  split; [reflexivity|]. split; [reflexivity|].
  exact (keep_all_no_value_equal_pair
           [AddOrMerge g4ctp; SetRemoveCallsignOnly true;
            AddOrMerge g4ctp_padded; AddOrMerge m0xyz]
           (fresh_world ∅) eq_refl eq_refl eq_refl).
Defined.

(** ** Records without a callsign *)

Lemma callsigns_kept c w :
  Forall (fun x => callsign x <> "") (records (self w)) ->
  fst (perform c w) = Ok tt
  /\ Forall (fun x => callsign x <> "") (records (self (snd (perform c w)))).
Proof.
  intros Hinv. destruct c as [mode|value|cb|r|]; simpl;
    try (unfold_monad; simpl; now auto).
  - destruct (accepted (self w) r) eqn:Ha;
      [|rewrite rejected_unchanged by assumption; auto].
    pose proof Ha as Hr. apply accepted_iff in Hr as [Hr _].
    destruct (List.filter (Record.same_call r) (records (self w)))
      as [|x xs] eqn:Hf.
    + apply filter_none in Hf.
      assert (Hs : Forall (fun x => callsign x <> "") (records (self w) ++ [r]))
        by (apply Forall_app; auto).
      destruct (merge_mode (self w)) eqn:Hm.
      * rewrite keep_all_step by assumption. simpl. split; auto.
        now destruct (PyList.contains (records (self w)) r).
      * rewrite keep_recent_step_new by assumption. auto.
      * rewrite smart_merge_step_new by assumption. auto.
    + apply filter_first_split in Hf as (pre & post & Hl & Hpre & Hx).
      rewrite Hl in Hinv. apply Forall_app in Hinv as [Hi1 Hi2].
      inversion Hi2 as [|? ? Hx0 Hpost]; subst.
      destruct (merge_mode (self w)) eqn:Hm.
      * rewrite keep_all_step by assumption. simpl. split; auto.
        assert (Hs : Forall (fun x => callsign x <> "") (records (self w)))
          by (rewrite Hl; apply Forall_app; auto).
        destruct (PyList.contains (records (self w)) r); auto.
        apply Forall_app; auto.
      * rewrite (keep_recent_step_match w r pre x post) by assumption.
        simpl. split; auto. rewrite !Forall_app. auto.
      * rewrite (smart_merge_step_match w r pre x post) by assumption.
        simpl. split; auto. apply Forall_app. split; auto.
  - unfold_monad. simpl. destruct (records (self w)); simpl; auto.
Qed.

(** C5, amended to the empty callsign. A record whose callsign is the
    empty string is discarded by the entry point under every policy and
    filter setting, and the whole world is left as it was; and a store
    that starts empty and is changed by engine calls never holds a record
    with an empty callsign. *)
Theorem empty_callsign_never_stored w :
  (forall r, callsign r = "" -> add_or_merge_record r w = (Ok tt, w))
  /\ (forall calls,
        records (self w) = [] ->
        Forall (fun x => callsign x <> "")
          (records (self (snd (run calls w))))).
Proof.
  split.
  - intros r Hr. apply rejected_unchanged. unfold accepted. now rewrite Hr.
  - intros calls Hl.
    assert (Hinv : Forall (fun x => callsign x <> "") (records (self w)))
      by (rewrite Hl; constructor).
    clear Hl. revert w Hinv.
    induction calls as [|c calls IH]; intros w Hinv; [exact Hinv|].
    destruct (callsigns_kept c w Hinv) as [Hok Hinv'].
    rewrite run_cons. destruct (perform c w) as [[[]|e] w']; simpl in *;
      [|discriminate].
    now apply IH.
Qed.

Lemma empty_callsign_never_stored_witness :
  callsign no_callsign = ""
  /\ add_or_merge_record no_callsign smart_world = (Ok tt, smart_world)
  /\ records (self (fresh_world ∅)) = []
  /\ Forall (fun x => callsign x <> "")
       (records (self (snd (run [AddOrMerge no_callsign; AddOrMerge g4ctp]
                              (fresh_world ∅))))).
Proof.
  split; [reflexivity|]. split.
  - exact (proj1 (empty_callsign_never_stored smart_world) no_callsign eq_refl).
  - split; [reflexivity|].
    exact (proj2 (empty_callsign_never_stored (fresh_world ∅))
             [AddOrMerge no_callsign; AddOrMerge g4ctp] eq_refl).
Defined.

(** C5 as stated fails for a callsign made of whitespace: the guard of
    the entry point tests the callsign for emptiness, not for blankness,
    so the record is stored. *)
Lemma blank_callsign_is_stored :
  strip (callsign blank_callsign) = ""
  /\ records (self (snd (add_or_merge_record blank_callsign (fresh_world ∅))))
     = [blank_callsign].
Proof. split; reflexivity. Qed.

(** C10. A record with a non-empty callsign that the callsign-only filter
    does not drop makes the entry point return with the dirty flag set and
    every registered observer called once, in registration order; this
    holds even when the store itself is left unchanged, as when Keep-All
    finds a value-equal record already stored. *)
Theorem accepted_record_sets_flag_and_notifies w r :
  callsign r <> "" ->
  (remove_callsign_only (self w) = true ->
   Record.has_more_than_callsign r = true) ->
  let w' := snd (add_or_merge_record r w) in
  fst (add_or_merge_record r w) = Ok tt
  /\ has_unsaved_changes (self w') = true
  /\ observers (self w') = observers (self w)
  /\ notified w' = notified w ++ observers (self w)
  /\ (merge_mode (self w) = KEEP_ALL ->
      PyList.contains (records (self w)) r = true ->
      records (self w') = records (self w)).
Proof.
  intros Hc Hf w'. subst w'.
  assert (Ha : accepted (self w) r = true) by (apply accepted_iff; auto).
  split; [apply add_or_merge_record_returns|].
  destruct (accepted_committed w r Ha) as [l Hl].
  repeat split; try (rewrite Hl; reflexivity).
  intros Hm Hin. rewrite keep_all_step by assumption. simpl. now rewrite Hin.
Qed.

Lemma accepted_record_sets_flag_and_notifies_witness :
  callsign g4ctp_padded <> ""
  /\ PyList.contains (records (self observed_world)) g4ctp_padded = true
  /\ has_unsaved_changes
       (self (snd (add_or_merge_record g4ctp_padded observed_world))) = true
  /\ notified (snd (add_or_merge_record g4ctp_padded observed_world))
     = [1%nat; 1%nat; 2%nat]
  /\ records (self (snd (add_or_merge_record g4ctp_padded observed_world)))
     = [g4ctp].
Proof.
  split; [discriminate|]. split; [reflexivity|].
  assert (H := accepted_record_sets_flag_and_notifies observed_world
                 g4ctp_padded).
  destruct H as (_ & Hflag & _ & Hnot & Hsame);
    [discriminate | intros _; reflexivity |].
  split; [exact Hflag|]. split; [exact Hnot|].
  exact (Hsame eq_refl eq_refl).
Defined.


(** ** The CSL writer *)

Lemma save_csl_cases w filename :
  let data := HEADER +:+ String PyFile.LF EmptyString
              +:+ csv.writerows (map Record.to_list (records (self w))) in
  match faults w !! filename with
  | None =>
      save_csl filename w
      = (Ok tt,
         mkWorld
           (mkManager (records (self w)) (current_file (self w))
              (merge_mode (self w)) (remove_callsign_only (self w))
              (observers (self w)) false)
           (notified w ++ observers (self w)) (delivered w)
           (<[filename := data]> (disk w)) (faults w))
  | Some (OpenFails msg) =>
      save_csl filename w
      = (Raise (IOError ("Failed to save file: " +:+ msg)), w)
  | Some (WriteFails n msg) =>
      save_csl filename w
      = (Raise (IOError ("Failed to save file: " +:+ msg)),
         mkWorld (self w) (notified w) (delivered w)
           (<[filename := take n data]> (disk w)) (faults w))
  end.
Proof.
  unfold save_csl, try_except, PyFile.write. unfold_monad. simpl.
  destruct (faults w !! filename) as [[msg|n msg]|]; reflexivity.
Qed.

(** C7. Saving: when [save_csl] raises, the engine state (record list,
    dirty flag, every field) and the notification log are what they were;
    when it returns, the record list is unchanged, the dirty flag is
    false and every observer has been called once. Observer callbacks are
    taken to return normally. *)
Theorem save_csl_outcome w filename :
  let w' := snd (save_csl filename w) in
  match fst (save_csl filename w) with
  | Raise e =>
      self w' = self w /\ notified w' = notified w
  | Ok _ =>
      records (self w') = records (self w)
      /\ has_unsaved_changes (self w') = false
      /\ notified w' = notified w ++ observers (self w)
  end.
Proof.
  pose proof (save_csl_cases w filename) as H. simpl in H.
  destruct (faults w !! filename) as [[msg|n msg]|]; rewrite H; simpl; auto.
Qed.

Lemma save_csl_fails_on_fault w filename f :
  faults w !! filename = Some f ->
  exists msg, fst (save_csl filename w) = Raise (IOError msg).
Proof.
  intros Hf. pose proof (save_csl_cases w filename) as H. simpl in H.
  rewrite Hf in H. destruct f; rewrite H; eauto.
Qed.

Lemma save_csl_succeeds_without_fault w filename :
  faults w !! filename = None -> fst (save_csl filename w) = Ok tt.
Proof.
  intros Hf. pose proof (save_csl_cases w filename) as H. simpl in H.
  now rewrite Hf in H; rewrite H.
Qed.

(** ** Outcomes of computations *)

Lemma bind_ok {A B} (m : M A) (k : A -> M B) w a w' :
  m w = (Ok a, w') -> bind m k w = k a w'.
Proof. intros H. unfold bind. now rewrite H. Qed.

Lemma bind_raise {A B} (m : M A) (k : A -> M B) w e w' :
  m w = (Raise e, w') -> bind m k w = (Raise e, w').
Proof. intros H. unfold bind. now rewrite H. Qed.

Lemma raises_only_bind {A B} P (m : M A) (k : A -> M B) :
  raises_only P m -> (forall a, raises_only P (k a)) ->
  raises_only P (bind m k).
Proof.
  intros Hm Hk w e. unfold bind.
  destruct (m w) as [[a|e'] w'] eqn:E.
  - apply Hk.
  - simpl. intros [= <-]. apply (Hm w). now rewrite E.
Qed.

Lemma raises_only_ret {A} P (a : A) : raises_only P (ret a).
Proof. intros w e. discriminate. Qed.

Lemma raises_only_lift {A} (P : exn -> Prop) (r : result A) :
  (forall e, r = Raise e -> P e) -> raises_only P (lift r).
Proof. intros H w e. simpl. apply H. Qed.

Lemma raises_only_add_or_merge_record P r :
  raises_only P (add_or_merge_record r).
Proof. intros w e. rewrite add_or_merge_record_returns. discriminate. Qed.

Lemma raises_only_report P progress_callback percentage :
  returns_normally progress_callback ->
  (forall e, percentage = Raise e -> P e) ->
  raises_only P (report progress_callback percentage).
Proof.
  intros Hcb Hp. destruct progress_callback as [cb|]; simpl.
  - apply raises_only_bind; [now apply raises_only_lift|].
    intros q w e. rewrite (Hcb cb eq_refl). discriminate.
  - apply raises_only_ret.
Qed.

(** ** The Minos loader *)

Lemma percent_raises a b e :
  percent a b = Raise e -> e = ZeroDivisionError "division by zero".
Proof.
  unfold percent, PyNum.truediv. destruct (b =? 0); congruence.
Qed.

Lemma minos_progress_raises k total e :
  minos_progress k total = Raise e -> minos_loop_error e.
Proof.
  unfold minos_progress. intros H. right.
  destruct (percent (Z.of_nat k) (Z.of_nat total)) eqn:E; [discriminate|].
  injection H as <-. now apply percent_raises in E.
Qed.

Lemma get_stripped_raises qso_data key e :
  get_stripped qso_data key = Raise e -> minos_loop_error e.
Proof.
  unfold get_stripped. destruct (qso_data !! Some key) as [[s|]|];
    try discriminate. intros [= <-]. now left.
Qed.

Lemma minos_iqs_raises progress_callback total iqs :
  returns_normally progress_callback ->
  forall processed qso_count,
    raises_only minos_loop_error
      (minos_iqs progress_callback total processed qso_count iqs).
Proof.
  intros Hcb. induction iqs as [|iq rest IH]; intros processed qso_count;
    cbn [minos_iqs]; [apply raises_only_ret|].
  apply raises_only_bind.
  { apply raises_only_report; [assumption|]. apply minos_progress_raises. }
  intros _. apply raises_only_bind; [|intros c; apply IH].
  destruct (qso_params iq) as [params|]; [|apply raises_only_ret].
  destruct (is_truthy _); [|apply raises_only_ret].
  repeat (apply raises_only_bind;
          [apply raises_only_lift, get_stripped_raises | intros ?]).
  apply raises_only_bind;
    [apply raises_only_add_or_merge_record | intros; apply raises_only_ret].
Qed.

(** ** Loads that are rejected *)

Section Rejected.

Variable fromstring : string -> result ET.Element.

Lemma exists_present w filepath text :
  disk w !! filepath = Some text ->
  PyFile.exists_ filepath w = (Ok true, w).
Proof. intros H. unfold PyFile.exists_. now rewrite H. Qed.

Lemma load_minos_no_marker w filename cb text :
  disk w !! filename = Some text ->
  find (PyFile.universal_newlines text) "<stream:stream" = -1 ->
  load_minos fromstring filename cb w
  = (Raise (IOError ("Failed to load Minos file: "
                     +:+ "Invalid Minos file format: No stream element found")),
     w).
Proof.
  intros Hd Hf. unfold load_minos, try_except, PyFile.getsize, PyFile.read.
  unfold_monad. cbv beta iota zeta. rewrite !Hd. cbv beta iota zeta.
  rewrite Hf. reflexivity.
Qed.

Lemma load_minos_unparsable w filename cb text m :
  disk w !! filename = Some text ->
  find (PyFile.universal_newlines text) "<stream:stream" <> -1 ->
  fromstring
    (minos_clean_content (PyFile.universal_newlines text)
       (find (PyFile.universal_newlines text) "<stream:stream"))
  = Raise (ParseError m) ->
  load_minos fromstring filename cb w
  = (Raise (IOError ("Failed to load Minos file: "
                     +:+ "Invalid XML in Minos file: " +:+ m)),
     w).
Proof.
  intros Hd Hf Hp. unfold load_minos, try_except, PyFile.getsize, PyFile.read.
  unfold_monad. cbv beta iota zeta. rewrite !Hd. cbv beta iota zeta.
  apply Z.eqb_neq in Hf. rewrite Hf, Hp. reflexivity.
Qed.

(** C8. A load with a structural defect (missing path, unsupported
    extension, Minos file without a stream marker, Minos file that is
    not well-formed XML) raises the corresponding exception and leaves
    the whole world as it was, for every progress callback; in
    particular the dirty flag and the number of records are unchanged. *)
Theorem rejected_load_changes_nothing w filepath progress_callback e :
  structural_failure fromstring w filepath e ->
  load_file fromstring filepath progress_callback w = (Raise e, w)
  /\ has_unsaved_changes
       (self (snd (load_file fromstring filepath progress_callback w)))
     = has_unsaved_changes (self w)
  /\ length
       (records (self (snd (load_file fromstring filepath progress_callback w))))
     = length (records (self w)).
Proof.
  intros Hs.
  enough (H : load_file fromstring filepath progress_callback w = (Raise e, w))
    by (rewrite H; auto).
  destruct Hs as [Hd | text Hd Hx | text Hd Hx Hf | text m Hd Hx Hf Hp];
    unfold load_file, bind at 1.
  - unfold PyFile.exists_. rewrite Hd. reflexivity.
  - rewrite (exists_present _ _ _ Hd). cbv beta iota zeta.
    change (negb true) with false. cbv iota. rewrite Hx. reflexivity.
  - rewrite (exists_present _ _ _ Hd). cbv beta iota zeta. rewrite Hx.
    cbn -[load_minos]. unfold bind at 1, PyFile.getsize. rewrite Hd.
    unfold bind at 1.
    now rewrite (load_minos_no_marker w filepath _ text).
  - rewrite (exists_present _ _ _ Hd). cbv beta iota zeta. rewrite Hx.
    cbn -[load_minos]. unfold bind at 1, PyFile.getsize. rewrite Hd.
    unfold bind at 1.
    now rewrite (load_minos_unparsable w filepath _ text m).
Qed.

End Rejected.

Lemma rejected_load_changes_nothing_witness :
  structural_failure sample_fromstring sample_minos_world "bad.minos"
    (IOError "Failed to load Minos file: Invalid Minos file format: No stream element found")
  /\ load_file sample_fromstring "bad.minos" (Some sink) sample_minos_world
     = (Raise (IOError "Failed to load Minos file: Invalid Minos file format: No stream element found"),
        sample_minos_world).
Proof.
  assert (H : structural_failure sample_fromstring sample_minos_world
                "bad.minos"
                (IOError "Failed to load Minos file: Invalid Minos file format: No stream element found")).
  { apply (no_stream_marker sample_fromstring sample_minos_world "bad.minos"
             "<iq/>"); reflexivity. }
  split; [exact H|].
  exact (proj1 (rejected_load_changes_nothing sample_fromstring
                  sample_minos_world "bad.minos" (Some sink) _ H)).
Defined.

Section Minos.

Variable fromstring : string -> result ET.Element.
Variables (w : World) (filename text : string) (root : ET.Element).
Variable progress_callback : option callback.

Let content := PyFile.universal_newlines text.
Let iqs := ET.findall_below root (ns_client +:+ "iq").

Hypothesis Hfile : disk w !! filename = Some text.
Hypothesis Hmarker : find content "<stream:stream" <> -1.
Hypothesis Hparsed :
  fromstring (minos_clean_content content (find content "<stream:stream"))
  = Ok root.

Lemma load_minos_parsed :
  load_minos fromstring filename progress_callback w
  = match iqs with
    | [] => (Raise EmptyResultError, w)
    | _ :: _ =>
        match minos_iqs progress_callback (length iqs) 0 0 iqs w with
        | (Ok _, w') => (Ok tt, w')
        | (Raise (FileNotFoundError m), w') =>
            (Raise (FileNotFoundError m), w')
        | (Raise (ParseError m), w') =>
            (Raise (ValueError ("Failed to parse Minos file: " +:+ m)), w')
        | (Raise e, w') =>
            (Raise (IOError ("Failed to load Minos file: " +:+ str_exn e)), w')
        end
    end.
Proof.
  unfold load_minos, try_except, PyFile.getsize, PyFile.read.
  unfold_monad. cbv beta iota zeta. rewrite !Hfile. cbv beta iota zeta.
  fold content. apply Z.eqb_neq in Hmarker. rewrite Hmarker, Hparsed.
  cbv beta iota zeta. fold iqs.
  destruct iqs as [|iq rest] eqn:E; [reflexivity|].
  change (length (iq :: rest) =? 0)%nat with false. cbv iota beta.
  destruct (minos_iqs progress_callback (length (iq :: rest)) 0 0 (iq :: rest) w)
    as [[c|[]] w']; reflexivity.
Qed.

Lemma unqualified_iqs_load total :
  returns_normally progress_callback ->
  (0 < total)%nat ->
  forall l processed qso_count w0,
    List.filter qualifies l = [] ->
    fst (minos_iqs progress_callback total processed qso_count l w0)
    = Ok qso_count.
Proof.
  intros Hcb Ht. induction l as [|iq rest IH]; intros processed qso_count w0 Hq;
    cbn [minos_iqs]; [reflexivity|].
  simpl in Hq. destruct (qualifies iq) eqn:Hiq; [discriminate|].
  assert (Hrep : exists w1,
             report progress_callback (minos_progress (S processed) total) w0
             = (Ok tt, w1)).
  { unfold minos_progress, percent, PyNum.truediv.
    replace (Z.of_nat total =? 0) with false by (symmetry; apply Z.eqb_neq; lia).
    destruct progress_callback as [cb|]; simpl; [|eauto].
    unfold bind, lift. pose proof (Hcb cb eq_refl) as H.
    match goal with |- context [cb ?q w0] =>
      specialize (H q w0); destruct (cb q w0) as [[[]|e] w1] end;
      simpl in H; [eauto|discriminate]. }
  destruct Hrep as [w1 Hrep]. rewrite (bind_ok _ _ _ _ _ Hrep).
  unfold qualifies in Hiq. unfold bind at 1.
  destruct (qso_params iq) as [params|]; [rewrite Hiq|]; simpl; now apply IH.
Qed.

(** C6, amended. For a Minos file with a stream marker and well-formed
    XML, loaded with a progress callback that returns normally,
    [load_minos] fails with [EmptyResultError] exactly when the document
    has no [iq] element at all; when it has [iq] elements and none of
    them qualifies, the load returns without an error. *)
Theorem minos_fails_iff_no_iq_element :
  returns_normally progress_callback ->
  (fst (load_minos fromstring filename progress_callback w)
   = Raise EmptyResultError
   <-> iqs = [])
  /\ (iqs <> [] -> List.filter qualifies iqs = [] ->
      fst (load_minos fromstring filename progress_callback w) = Ok tt).
Proof.
  intros Hcb. rewrite load_minos_parsed.
  destruct iqs as [|iq rest] eqn:E.
  - split; [split; auto|]. congruence.
  - split.
    + split; [|discriminate]. intros H. exfalso.
      pose proof (minos_iqs_raises progress_callback (length (iq :: rest))
                    (iq :: rest) Hcb 0%nat 0%nat w) as Hr.
      destruct (minos_iqs progress_callback (length (iq :: rest)) 0 0
                  (iq :: rest) w) as [[c|e] w'] eqn:Hl; [discriminate|].
      destruct (Hr e) as [-> | ->];
        [simpl; congruence | discriminate | discriminate].
    + intros _ Hq.
      pose proof (unqualified_iqs_load (length (iq :: rest)) Hcb
                    ltac:(simpl; lia) (iq :: rest) 0%nat 0%nat w Hq) as Hok.
      destruct (minos_iqs progress_callback (length (iq :: rest)) 0 0
                  (iq :: rest) w) as [[c|e] w']; [reflexivity|discriminate].
Qed.

End Minos.

Lemma returns_normally_none : returns_normally None.
Proof. intros cb. discriminate. Qed.

Lemma minos_fails_iff_no_iq_element_witness :
  disk sample_minos_world !! "log.minos" = Some sample_minos_text
  /\ find (PyFile.universal_newlines sample_minos_text) "<stream:stream" <> -1
  /\ ET.findall_below sample_minos_root (ns_client +:+ "iq") <> []
  /\ fst (load_minos sample_fromstring "log.minos" None sample_minos_world)
     = Ok tt.
Proof.
  split; [reflexivity|]. split; [discriminate|]. split; [discriminate|].
  refine (proj2 (minos_fails_iff_no_iq_element sample_fromstring
                   sample_minos_world "log.minos" sample_minos_text
                   sample_minos_root None eq_refl _ eq_refl
                   returns_normally_none) _ eq_refl); discriminate.
Defined.

(** C6 as stated fails on a document whose only [iq] element is not a
    QSO: the stream marker is there, the XML is well-formed, no record
    qualifies, and the load returns normally. *)
Lemma minos_without_qualifying_record_loads :
  find (PyFile.universal_newlines sample_minos_text) "<stream:stream" = 21
  /\ sample_fromstring
       (minos_clean_content (PyFile.universal_newlines sample_minos_text) 21)
     = Ok sample_minos_root
  /\ List.filter qualifies
       (ET.findall_below sample_minos_root (ns_client +:+ "iq")) = []
  /\ fst (load_minos sample_fromstring "log.minos" None sample_minos_world)
     = Ok tt.
Proof. repeat split; vm_compute; reflexivity. Qed.

(** ** Arithmetic of the progress values *)

Section ProgressArithmetic.

Local Open Scope Q_scope.

Lemma min_le_l a b : PyNum.min a b <= a.
Proof.
  unfold PyNum.min. destruct (Qle_bool a b) eqn:E; [apply Qle_refl|].
  destruct (Qlt_le_dec b a) as [H|H]; [now apply Qlt_le_weak|].
  apply Qle_bool_iff in H. congruence.
Qed.

Lemma min_le_r a b : PyNum.min a b <= b.
Proof.
  unfold PyNum.min. destruct (Qle_bool a b) eqn:E; [|apply Qle_refl].
  now apply Qle_bool_iff.
Qed.

Lemma min_glb a b c : c <= a -> c <= b -> c <= PyNum.min a b.
Proof. unfold PyNum.min. now destruct (Qle_bool a b). Qed.

Lemma max_le_l a b : a <= PyNum.max a b.
Proof.
  unfold PyNum.max. destruct (Qle_bool b a) eqn:E; [apply Qle_refl|].
  destruct (Qlt_le_dec a b) as [H|H]; [now apply Qlt_le_weak|].
  apply Qle_bool_iff in H. congruence.
Qed.

Lemma max_le_r a b : b <= PyNum.max a b.
Proof.
  unfold PyNum.max. destruct (Qle_bool b a) eqn:E; [|apply Qle_refl].
  now apply Qle_bool_iff.
Qed.

Lemma max_lub a b c : a <= c -> b <= c -> PyNum.max a b <= c.
Proof. unfold PyNum.max. now destruct (Qle_bool b a). Qed.

Lemma min_mono a a' b : a <= a' -> PyNum.min a b <= PyNum.min a' b.
Proof.
  intros H. apply min_glb.
  - eapply Qle_trans; [apply min_le_l | exact H].
  - apply min_le_r.
Qed.

Lemma max_mono a a' b : a <= a' -> PyNum.max a b <= PyNum.max a' b.
Proof.
  intros H. apply max_lub.
  - eapply Qle_trans; [exact H | apply max_le_l].
  - apply max_le_r.
Qed.

Lemma clamp_range q : 0 <= clamp q /\ clamp q <= 100.
Proof.
  unfold clamp. split; [|apply min_le_r].
  apply min_glb; [apply max_le_r | discriminate].
Qed.

Lemma clamp_mono q q' : q <= q' -> clamp q <= clamp q'.
Proof. intros H. unfold clamp. now apply min_mono, max_mono. Qed.

Lemma clamp_le q c : q <= c -> 0 <= c -> clamp q <= c.
Proof.
  intros H Hc. unfold clamp.
  eapply Qle_trans; [apply min_le_l|]. now apply max_lub.
Qed.

Lemma clamp_ge q c : c <= q -> c <= 100 -> c <= clamp q.
Proof.
  intros H Hc. unfold clamp. apply min_glb; [|exact Hc].
  eapply Qle_trans; [exact H | apply max_le_l].
Qed.

Lemma pct_mono a a' b : (0 < b)%Z -> (a <= a')%Z -> pct a b <= pct a' b.
Proof.
  intros Hb Ha. unfold pct, Qdiv.
  apply Qmult_le_compat_r; [|discriminate].
  apply Qmult_le_compat_r; [now rewrite Zle_Qle in Ha|].
  apply Qinv_le_0_compat. change 0 with (inject_Z 0).
  rewrite <- Zle_Qle. lia.
Qed.

Lemma pct_nonneg a b : (0 < b)%Z -> (0 <= a)%Z -> 0 <= pct a b.
Proof.
  intros Hb Ha. unfold pct, Qdiv.
  apply Qmult_le_0_compat; [|discriminate].
  apply Qmult_le_0_compat.
  - change 0 with (inject_Z 0). rewrite <- Zle_Qle. lia.
  - apply Qinv_le_0_compat. change 0 with (inject_Z 0).
    rewrite <- Zle_Qle. lia.
Qed.

Lemma pct_half a total :
  (0 < total)%Z -> (a <= total)%Z -> pct a (total * 2) <= 50.
Proof.
  intros Ht Ha. unfold pct.
  assert (H : inject_Z a / inject_Z (total * 2) <= 1 # 2).
  { apply Qle_shift_div_r.
    - change 0 with (inject_Z 0). rewrite <- Zlt_Qlt. lia.
    - rewrite inject_Z_mult. rewrite Zle_Qle in Ha.
      change (inject_Z 2) with 2. lra. }
  apply Qle_trans with ((1 # 2) * 100); [|discriminate].
  apply Qmult_le_compat_r; [exact H | discriminate].
Qed.

Lemma percent_ok a b q :
  percent a b = Ok q -> b <> 0%Z /\ q = pct a b.
Proof.
  unfold percent, PyNum.truediv, pct.
  destruct (b =? 0)%Z eqn:E; [discriminate|].
  intros [= <-]. split; [now apply Z.eqb_neq|reflexivity].
Qed.

End ProgressArithmetic.

(** ** Progress sequences *)

Lemma ascending_weaken lo lo' hi vs :
  (lo' <= lo)%Q -> ascending lo hi vs -> ascending lo' hi vs.
Proof.
  destruct vs as [|v rest]; simpl; [auto|].
  intros H (H1 & H2 & H3). repeat split; auto. eapply Qle_trans; eauto.
Qed.

Lemma ascending_widen lo hi hi' vs :
  (hi <= hi')%Q -> ascending lo hi vs -> ascending lo hi' vs.
Proof.
  revert lo. induction vs as [|v rest IH]; simpl; [auto|].
  intros lo H (H1 & H2 & H3). repeat split; auto. eapply Qle_trans; eauto.
Qed.

Lemma ascending_app lo mid hi vs1 vs2 :
  (lo <= mid)%Q -> (mid <= hi)%Q ->
  ascending lo mid vs1 -> ascending mid hi vs2 ->
  ascending lo hi (vs1 ++ vs2).
Proof.
  revert lo. induction vs1 as [|v rest IH]; simpl; intros lo Hlo Hhi H1 H2.
  - eapply ascending_weaken; eauto.
  - destruct H1 as (Ha & Hb & Hc). repeat split; auto.
    eapply Qle_trans; eauto.
Qed.

Lemma ascending_bounds lo hi vs :
  ascending lo hi vs -> Forall (fun v => (lo <= v)%Q /\ (v <= hi)%Q) vs.
Proof.
  revert lo. induction vs as [|v rest IH]; simpl; intros lo H; [constructor|].
  destruct H as (Ha & Hb & Hc). constructor; [auto|].
  eapply Forall_impl; [apply (IH v Hc)|]. simpl. intros x [Hx1 Hx2].
  split; [eapply Qle_trans; eauto | auto].
Qed.

Lemma ascending_sorted lo hi vs :
  ascending lo hi vs -> StronglySorted Qle vs.
Proof.
  revert lo. induction vs as [|v rest IH]; simpl; intros lo H; [constructor|].
  destruct H as (Ha & Hb & Hc). constructor; [eauto|].
  eapply Forall_impl; [apply (ascending_bounds _ _ _ Hc)|]. simpl. tauto.
Qed.

Lemma silent_refl w : silent w w.
Proof. reflexivity. Qed.

Lemma silent_trans w1 w2 w3 : silent w1 w2 -> silent w2 w3 -> silent w1 w3.
Proof. unfold silent. congruence. Qed.

Lemma silent_emits lo hi w w' : silent w w' -> emits lo hi w w'.
Proof.
  intros H. exists []. rewrite app_nil_r. split; [exact H | exact I].
Qed.

Lemma silent_then_emits lo hi w1 w2 w3 :
  silent w1 w2 -> emits lo hi w2 w3 -> emits lo hi w1 w3.
Proof.
  intros Hs (vs & Hd & Ha). exists vs. unfold silent in Hs. split; [congruence|auto].
Qed.

Lemma emits_then_silent lo hi w1 w2 w3 :
  emits lo hi w1 w2 -> silent w2 w3 -> emits lo hi w1 w3.
Proof.
  intros (vs & Hd & Ha) Hs. exists vs. unfold silent in Hs. split; [congruence|auto].
Qed.

Lemma emits_trans lo mid hi w1 w2 w3 :
  (lo <= mid)%Q -> (mid <= hi)%Q ->
  emits lo mid w1 w2 -> emits mid hi w2 w3 -> emits lo hi w1 w3.
Proof.
  intros Hlo Hhi (vs1 & Hd1 & Ha1) (vs2 & Hd2 & Ha2).
  exists (vs1 ++ vs2). split.
  - rewrite Hd2, Hd1. now rewrite app_assoc.
  - eapply ascending_app; eauto.
Qed.

Lemma emits_weaken lo lo' hi w w' :
  (lo' <= lo)%Q -> emits lo hi w w' -> emits lo' hi w w'.
Proof.
  intros H (vs & Hd & Ha). exists vs. split; [auto|].
  eapply ascending_weaken; eauto.
Qed.

(** One value [v] is delivered, then a sequence that starts at [v]. *)
Lemma emits_step lo hi v w1 w2 w3 :
  delivered w2 = delivered w1 ++ [v] ->
  (lo <= v)%Q -> (v <= hi)%Q ->
  emits v hi w2 w3 -> emits lo hi w1 w3.
Proof.
  intros Hd Hlo Hhi (vs & Hd' & Ha). exists (v :: vs). split.
  - rewrite Hd', Hd. now rewrite <- app_assoc.
  - simpl. auto.
Qed.

(** ** Computations that do not call the sink *)

Create HintDb quiet.

Lemma relates_silent_bind {A B} (m : M A) (k : A -> M B) :
  relates silent m -> (forall a, relates silent (k a)) ->
  relates silent (bind m k).
Proof.
  intros Hm Hk w. unfold bind. specialize (Hm w).
  destruct (m w) as [[a|e] w1]; simpl in *; [|exact Hm].
  eapply silent_trans; [exact Hm | apply Hk].
Qed.

Lemma relates_silent_ret {A} (a : A) : relates silent (ret a).
Proof. intros w. reflexivity. Qed.

Lemma relates_silent_raise {A} e : relates silent (@raise A e).
Proof. intros w. reflexivity. Qed.

Lemma relates_silent_lift {A} (r : result A) : relates silent (lift r).
Proof. intros w. reflexivity. Qed.

Lemma relates_silent_getsize path : relates silent (PyFile.getsize path).
Proof. intros w. unfold PyFile.getsize. now destruct (disk w !! path). Qed.

Lemma relates_silent_read path : relates silent (PyFile.read path).
Proof. intros w. unfold PyFile.read. now destruct (disk w !! path). Qed.

Lemma relates_silent_exists path : relates silent (PyFile.exists_ path).
Proof. intros w. reflexivity. Qed.

Lemma relates_silent_add_or_merge_record r :
  relates silent (add_or_merge_record r).
Proof.
  intros w. destruct (accepted (self w) r) eqn:Ha.
  - destruct (accepted_committed w r Ha) as [l ->]. reflexivity.
  - rewrite rejected_unchanged by assumption. reflexivity.
Qed.

Lemma relates_silent_raise_pending e : relates silent (raise_pending e).
Proof. intros w. now destruct e. Qed.

Lemma relates_silent_set_current_file p : relates silent (set_current_file p).
Proof. intros w. reflexivity. Qed.

Lemma relates_silent_set_has_unsaved_changes b :
  relates silent (set_has_unsaved_changes b).
Proof. intros w. reflexivity. Qed.

Lemma relates_silent_notify_observers : relates silent notify_observers.
Proof. intros w. reflexivity. Qed.

#[local] Hint Resolve relates_silent_ret relates_silent_raise
  relates_silent_lift relates_silent_getsize relates_silent_read
  relates_silent_exists relates_silent_add_or_merge_record
  relates_silent_raise_pending relates_silent_set_current_file
  relates_silent_set_has_unsaved_changes relates_silent_notify_observers
  : quiet.

Ltac quiet :=
  repeat first
    [ progress auto with quiet
    | apply relates_silent_bind; [|intros ?]
    | match goal with
      | |- relates silent (match ?x with _ => _ end) => destruct x
      | |- relates silent (if ?b then _ else _) => destruct b
      end ].

(** ** Computations that call the sink through [bounded_progress] *)

Lemma relates_emits_of_silent {A} lo hi (m : M A) :
  relates silent m -> relates (emits lo hi) m.
Proof. intros H w. apply silent_emits, H. Qed.

Lemma relates_emits_after_silent {A B} lo hi (m : M A) (k : A -> M B) :
  relates silent m -> (forall a, relates (emits lo hi) (k a)) ->
  relates (emits lo hi) (bind m k).
Proof.
  intros Hm Hk w. unfold bind. specialize (Hm w).
  destruct (m w) as [[a|e] w1]; simpl in *; [|now apply silent_emits].
  eapply silent_then_emits; [exact Hm | apply Hk].
Qed.

Lemma relates_emits_before_silent {A B} lo hi (m : M A) (k : A -> M B) :
  relates (emits lo hi) m -> (forall a, relates silent (k a)) ->
  relates (emits lo hi) (bind m k).
Proof.
  intros Hm Hk w. unfold bind. specialize (Hm w).
  destruct (m w) as [[a|e] w1]; simpl in *; [|exact Hm].
  eapply emits_then_silent; [exact Hm | apply Hk].
Qed.

Lemma relates_emits_bind {A B} lo mid hi (m : M A) (k : A -> M B) :
  (lo <= mid)%Q -> (mid <= hi)%Q ->
  relates (emits lo mid) m -> (forall a, relates (emits mid hi) (k a)) ->
  relates (emits lo hi) (bind m k).
Proof.
  intros Hlo Hhi Hm Hk w. unfold bind. specialize (Hm w).
  destruct (m w) as [[a|e] w1]; simpl in *.
  - eapply emits_trans; eauto. apply Hk.
  - destruct Hm as (vs & Hd & Ha). exists vs. split; [auto|].
    eapply ascending_widen; eauto.
Qed.

Lemma relates_emits_try_except {A} lo hi (m : M A) (h : exn -> M A) :
  relates (emits lo hi) m -> (forall e, relates silent (h e)) ->
  relates (emits lo hi) (try_except m h).
Proof.
  intros Hm Hh w. unfold try_except. specialize (Hm w).
  destruct (m w) as [[a|e] w1]; simpl in *; [exact Hm|].
  eapply emits_then_silent; [exact Hm | apply Hh].
Qed.

(** A report through [bounded_progress] delivers the clamped value and
    nothing else; a percentage that cannot be computed ends the load. *)
Lemma relates_emits_report {A} lo hi percentage (k : unit -> M A) :
  (forall q, percentage = Ok q ->
             (lo <= clamp q)%Q /\ (clamp q <= hi)%Q
             /\ relates (emits (clamp q) hi) (k tt)) ->
  relates (emits lo hi) (bind (report bounded_sink percentage) k).
Proof.
  intros H w. destruct percentage as [q|e]; simpl.
  - destruct (H q eq_refl) as (Hlo & Hhi & Hk).
    unfold bind, lift, bounded_progress, sink. simpl.
    eapply emits_step; [| exact Hlo | exact Hhi | apply Hk].
    reflexivity.
  - apply silent_emits. reflexivity.
Qed.

(** ** The loaders deliver ascending values *)

Lemma csl_rows_emits total rows :
  forall processed,
    relates (emits (clamp (pct (Z.of_nat processed) (Z.of_nat total))) 100)
      (csl_rows bounded_sink total processed rows).
Proof.
  induction rows as [|row rest IH]; intros processed; cbn [csl_rows].
  - apply relates_emits_of_silent. quiet.
  - apply relates_emits_after_silent; [quiet|]. intros _.
    apply relates_emits_report. intros q Hq.
    apply percent_ok in Hq as [Hb ->]. split; [|split].
    + apply clamp_mono, pct_mono; lia.
    + apply clamp_range.
    + apply IH.
Qed.

Lemma relates_bind_assoc {A B C} R (m : M A) (f : A -> M B) (g : B -> M C) :
  relates R (bind m (fun x => bind (f x) g)) -> relates R (bind (bind m f) g).
Proof.
  intros H w. specialize (H w). unfold bind in *.
  now destruct (m w) as [[a|e] w1].
Qed.

Lemma relates_bind_ret {A B} R (a : A) (k : A -> M B) :
  relates R (k a) -> relates R (bind (ret a) k).
Proof. intros H w. apply H. Qed.

Lemma load_csl_emits filename :
  relates (emits 0 100) (load_csl filename bounded_sink).
Proof.
  unfold load_csl.
  apply relates_emits_after_silent; [quiet|]. intros _.
  apply relates_emits_after_silent; [quiet|]. intros text.
  destruct (csv.reader (PyFile.readlines text)) as [rows pending].
  destruct rows as [|first_line rest]; [apply relates_emits_of_silent; quiet|].
  set (total := length (PyFile.readlines text)).
  assert (Hloop : forall processed,
             relates (emits (clamp (pct (Z.of_nat processed) (Z.of_nat total))) 100)
               (csl_rows bounded_sink total processed rest ;; raise_pending pending)).
  { intros processed. apply relates_emits_before_silent; [|intros; quiet].
    apply csl_rows_emits. }
  assert (Hzero : forall processed,
             relates (emits 0 100)
               (csl_rows bounded_sink total processed rest ;; raise_pending pending)).
  { intros processed w. eapply emits_weaken; [|apply Hloop]. apply clamp_range. }
  destruct first_line as [|first more].
  - apply relates_bind_ret, Hzero.
  - destruct (negb (startswith first "#")); [|apply relates_bind_ret, Hzero].
    apply relates_bind_assoc.
    apply relates_emits_after_silent; [quiet|]. intros r.
    apply relates_bind_assoc.
    apply relates_emits_after_silent; [quiet|]. intros _.
    apply relates_bind_assoc.
    apply relates_emits_report. intros q Hq.
    apply percent_ok in Hq as [Hb ->]. split; [|split]; try apply clamp_range.
    apply relates_bind_ret. apply (Hloop 1%nat).
Qed.

Lemma edi_comments_emits total lines :
  forall processed in_remarks comments,
    (processed + length lines <= total)%nat ->
    relates
      (emits (clamp (pct (Z.of_nat processed) (Z.of_nat total * 2))) 50)
      (edi_comments bounded_sink total processed in_remarks comments lines).
Proof.
  induction lines as [|line rest IH]; intros processed in_remarks comments Hlen;
    cbn [edi_comments].
  - apply relates_emits_of_silent. quiet.
  - simpl in Hlen. apply relates_emits_report. intros q Hq.
    apply percent_ok in Hq as [Hb ->]. split; [|split].
    + apply clamp_mono, pct_mono; lia.
    + apply clamp_le; [|discriminate]. apply pct_half; lia.
    + destruct (startswith (strip line) "[Remarks]");
        [|destruct (startswith (strip line) "[QSORecords;")];
        apply IH; lia.
Qed.

Lemma edi_progress_ok processed total q :
  edi_progress processed total = Ok q ->
  Z.of_nat total * 2 <> 0
  /\ q = PyNum.min (50 + pct (Z.of_nat processed) (Z.of_nat total * 2))%Q 100.
Proof.
  unfold edi_progress.
  destruct (percent (Z.of_nat processed) (Z.of_nat total * 2)) as [p|e] eqn:E;
    [|discriminate].
  apply percent_ok in E as [Hb ->]. intros [= <-]. auto.
Qed.

Lemma edi_qsos_emits total lines :
  forall processed in_qso_section comments,
    relates
      (emits (clamp (PyNum.min
                       (50 + pct (Z.of_nat processed) (Z.of_nat total * 2))%Q
                       100)) 100)
      (edi_qsos bounded_sink total processed in_qso_section comments lines).
Proof.
  induction lines as [|line rest IH]; intros processed in_qso_section comments;
    cbn [edi_qsos].
  - apply relates_emits_of_silent. quiet.
  - apply relates_emits_report. intros q Hq.
    apply edi_progress_ok in Hq as [Hb ->]. split; [|split].
    + apply clamp_mono, min_mono, Qplus_le_r, pct_mono; lia.
    + apply clamp_range.
    + destruct (startswith (strip line) "[QSORecords;"); [apply IH|].
      destruct (startswith (strip line) "[END;");
        [apply relates_emits_of_silent; quiet|].
      apply relates_emits_after_silent; [quiet|]. intros _. apply IH.
Qed.

Lemma load_edi_emits filename :
  relates (emits 0 100) (load_edi filename bounded_sink).
Proof.
  unfold load_edi.
  apply relates_emits_after_silent; [quiet|]. intros _.
  apply relates_emits_after_silent; [quiet|]. intros text.
  destruct (PyFile.readlines text) as [|line rest] eqn:E.
  - apply relates_emits_of_silent. quiet.
  - rewrite <- E. set (lines := PyFile.readlines text).
    assert (Hpos : 0 < Z.of_nat (length lines) * 2)
      by (subst lines; rewrite E; simpl; lia).
    apply (relates_emits_bind 0 50 100); try discriminate.
    + intros w. eapply emits_weaken; [|apply edi_comments_emits; simpl; lia].
      apply clamp_range.
    + intros comments w. eapply emits_weaken; [|apply edi_qsos_emits].
      apply clamp_ge; [|discriminate]. apply min_glb; [|discriminate].
      rewrite <- (Qplus_0_r 50) at 1. apply Qplus_le_r.
      apply pct_nonneg; lia.
Qed.

Lemma find_ge s sub : -1 <= find s sub.
Proof.
  unfold find, find_from. destruct (index 0 sub s); lia.
Qed.

Lemma adif_progress_ok processed total q :
  adif_progress processed total = Ok q ->
  total <> 0 /\ q = PyNum.min (pct processed total) 100.
Proof.
  unfold adif_progress.
  destruct (percent processed total) as [p|e] eqn:E; [|discriminate].
  apply percent_ok in E as [Hb ->]. intros [= <-]. auto.
Qed.

Lemma adif_loop_emits total fuel :
  0 <= total ->
  forall processed qsos,
    relates (emits (clamp (PyNum.min (pct processed total) 100)) 100)
      (adif_loop fuel bounded_sink total processed qsos).
Proof.
  intros Ht. induction fuel as [|fuel IH]; intros processed qsos;
    cbn [adif_loop].
  - apply relates_emits_of_silent. quiet.
  - destruct (truthy (strip qsos)); [|apply relates_emits_of_silent; quiet].
    destruct (find qsos "<EOR>" =? -1) eqn:Hf;
      [apply relates_emits_of_silent; quiet|].
    apply Z.eqb_neq in Hf. pose proof (find_ge qsos "<EOR>") as Hge.
    apply relates_emits_report. intros q Hq.
    apply adif_progress_ok in Hq as [Hb ->]. split; [|split].
    + apply clamp_mono, min_mono, pct_mono; lia.
    + apply clamp_range.
    + apply relates_emits_after_silent; [quiet|]. intros _. apply IH.
Qed.

Lemma load_adif_emits filename :
  relates (emits 0 100) (load_adif filename bounded_sink).
Proof.
  unfold load_adif.
  apply relates_emits_after_silent; [quiet|]. intros _.
  apply relates_emits_after_silent; [quiet|]. intros content.
  intros w. eapply emits_weaken; [|apply adif_loop_emits; lia].
  apply clamp_range.
Qed.

Lemma minos_progress_ok processed total q :
  minos_progress processed total = Ok q ->
  Z.of_nat total <> 0
  /\ q = PyNum.min (pct (Z.of_nat processed) (Z.of_nat total)) 100.
Proof.
  unfold minos_progress.
  destruct (percent (Z.of_nat processed) (Z.of_nat total)) as [p|e] eqn:E;
    [|discriminate].
  apply percent_ok in E as [Hb ->]. intros [= <-]. auto.
Qed.

Lemma minos_iqs_emits total iqs :
  forall processed qso_count,
    relates
      (emits (clamp (PyNum.min (pct (Z.of_nat processed) (Z.of_nat total)) 100))
         100)
      (minos_iqs bounded_sink total processed qso_count iqs).
Proof.
  induction iqs as [|iq rest IH]; intros processed qso_count; cbn [minos_iqs].
  - apply relates_emits_of_silent. quiet.
  - apply relates_emits_report. intros q Hq.
    apply minos_progress_ok in Hq as [Hb ->]. split; [|split].
    + apply clamp_mono, min_mono, pct_mono; lia.
    + apply clamp_range.
    + apply relates_emits_after_silent; [quiet|]. intros c. apply IH.
Qed.

Section LoadProgress.

Variable fromstring : string -> result ET.Element.

Lemma load_minos_emits filename :
  relates (emits 0 100) (load_minos fromstring filename bounded_sink).
Proof.
  unfold load_minos.
  apply relates_emits_try_except; [|intros e; destruct e; quiet].
  apply relates_emits_after_silent; [quiet|]. intros _.
  apply relates_emits_after_silent; [quiet|]. intros content.
  destruct (find content "<stream:stream" =? -1);
    [apply relates_emits_of_silent; quiet|].
  apply relates_emits_after_silent.
  { intros w. unfold try_except, lift.
    destruct (fromstring _) as [root|[]]; reflexivity. }
  intros root.
  destruct (length _ =? 0)%nat; [apply relates_emits_of_silent; quiet|].
  apply relates_emits_before_silent; [|intros; quiet].
  intros w. eapply emits_weaken; [|apply minos_iqs_emits]. apply clamp_range.
Qed.

Lemma load_file_emits filepath :
  relates (emits 0 100) (load_file fromstring filepath (Some sink)).
Proof.
  unfold load_file. fold bounded_sink.
  apply relates_emits_after_silent; [quiet|]. intros present.
  destruct (negb present); [apply relates_emits_of_silent; quiet|].
  destruct (negb (existsb _ SUPPORTED_FORMATS));
    [apply relates_emits_of_silent; quiet|].
  apply relates_emits_after_silent; [quiet|]. intros _.
  apply relates_emits_before_silent; [|intros; quiet].
  destruct (String.eqb _ ".csl"); [apply load_csl_emits|].
  destruct (String.eqb _ ".edi"); [apply load_edi_emits|].
  destruct (String.eqb _ ".adi" || String.eqb _ ".adif");
    [apply load_adif_emits|].
  destruct (String.eqb _ ".minos"); [apply load_minos_emits|].
  apply relates_emits_of_silent. quiet.
Qed.

(** C9. Whatever the file and its format, the values that a load
    delivers to the caller's sink lie in [0, 100] and never decrease.
    Python floats are modelled by rationals. *)
Theorem progress_is_ascending_and_bounded filepath w :
  exists vs,
    delivered (snd (load_file fromstring filepath (Some sink) w))
    = delivered w ++ vs
    /\ Forall (fun v => (0 <= v)%Q /\ (v <= 100)%Q) vs
    /\ StronglySorted Qle vs.
Proof.
  destruct (load_file_emits filepath w) as (vs & Hd & Ha).
  exists vs. split; [exact Hd|]. split.
  - now apply ascending_bounds.
  - eapply ascending_sorted; eauto.
Qed.

End LoadProgress.

(** ** The loaders on the sample logs *)

Example edi_sample_loads :
  let w := snd (load_file sample_fromstring "log.edi" (Some sink)
                  (fresh_world sample_files)) in
  records (self w) = [mkRecord "G4CTP" "IO91" "" "Nice contact"]
  /\ map Qred (delivered w)
     = [10; 20; 30; 40; 50; 60; 70; 80; 90; 100]%Q.
Proof. split; vm_compute; reflexivity. Qed.

Example adif_sample_loads :
  let w := snd (load_file sample_fromstring "log.adi" (Some sink)
                  (fresh_world sample_files)) in
  records (self w) = [mkRecord "G4CTP" "" "" "Test"]
  /\ map Qred (delivered w) = [100%Q].
Proof. split; vm_compute; reflexivity. Qed.

(** ** The ADIF loop ends before its fuel does *)

Lemma lstrip_length s : (String.length (lstrip s) <= String.length s)%nat.
Proof.
  induction s as [|c s IH]; simpl; [lia|].
  destruct (isspace c); simpl; lia.
Qed.

Lemma rstrip_length s : (String.length (rstrip s) <= String.length s)%nat.
Proof.
  induction s as [|c s IH]; simpl; [lia|].
  destruct (rstrip s); [destruct (isspace c)|]; simpl in *; lia.
Qed.

Lemma strip_length s : (String.length (strip s) <= String.length s)%nat.
Proof.
  unfold strip. pose proof (rstrip_length (lstrip s)).
  pose proof (lstrip_length s). lia.
Qed.

Lemma drop_length n s :
  String.length (drop n s) = (String.length s - n)%nat.
Proof.
  revert s. induction n as [|n IH]; intros s; simpl; [lia|].
  destruct s; simpl; [reflexivity | apply IH].
Qed.

Lemma next_chunk_shorter qsos :
  truthy (strip qsos) = true ->
  find qsos "<EOR>" <> -1 ->
  (String.length (strip (slice_from qsos (find qsos "<EOR>" + 5)))
   < String.length qsos)%nat.
Proof.
  intros Ht Hf. pose proof (find_ge qsos "<EOR>") as Hge.
  assert (Hlen : (0 < String.length qsos)%nat).
  { destruct qsos; simpl in *; [discriminate | lia]. }
  pose proof (strip_length (slice_from qsos (find qsos "<EOR>" + 5))) as Hs.
  unfold slice_from in *. rewrite drop_length in Hs.
  unfold norm_bound in *.
  destruct (find qsos "<EOR>" + 5 <? 0) eqn:E; [apply Z.ltb_lt in E; lia|].
  lia.
Qed.

Lemma bind_ext {A B} (m : M A) (k k' : A -> M B) w :
  (forall a w1, k a w1 = k' a w1) -> bind m k w = bind m k' w.
Proof.
  intros H. unfold bind. destruct (m w) as [[a|e] w1]; [apply H|reflexivity].
Qed.

(** X18. The record loop of the ADIF loader terminates: every turn
    strictly shortens the text that is left, so the loop gives the same
    outcome for every fuel above the length of the text; the fuel that
    [load_adif] supplies is never used up. *)
Lemma adif_loop_fuel progress_callback total :
  forall fuel fuel' processed qsos w,
    (String.length qsos < fuel)%nat -> (String.length qsos < fuel')%nat ->
    adif_loop fuel progress_callback total processed qsos w
    = adif_loop fuel' progress_callback total processed qsos w.
Proof.
  induction fuel as [|fuel IH]; intros fuel' processed qsos w H1 H2; [lia|].
  destruct fuel' as [|fuel']; [lia|]. cbn [adif_loop].
  destruct (truthy (strip qsos)) eqn:Ht; [|reflexivity].
  destruct (find qsos "<EOR>" =? -1) eqn:Hf; [reflexivity|].
  apply Z.eqb_neq in Hf. pose proof (next_chunk_shorter qsos Ht Hf) as Hlt.
  apply bind_ext. intros _ w1. apply bind_ext. intros _ w2.
  apply IH; lia.
Qed.

(** ** Saving and reloading *)

Lemma keep_all_keeps_head w r x l :
  merge_mode (self w) = KEEP_ALL ->
  records (self w) = x :: l ->
  merge_mode (self (snd (add_or_merge_record r w))) = KEEP_ALL
  /\ exists l', records (self (snd (add_or_merge_record r w))) = x :: l'.
Proof.
  intros Hm Hl. destruct (accepted (self w) r) eqn:Ha.
  - rewrite keep_all_step by assumption. simpl. split; [assumption|].
    rewrite Hl. destruct (PyList.contains (x :: l) r); simpl; eauto.
  - rewrite rejected_unchanged by assumption. simpl. eauto.
Qed.

Lemma csl_rows_keep_head total rows :
  forall processed w x l,
    merge_mode (self w) = KEEP_ALL ->
    records (self w) = x :: l ->
    exists l',
      records (self (snd (csl_rows None total processed rows w))) = x :: l'.
Proof.
  induction rows as [|row rest IH]; intros processed w x l Hm Hl;
    cbn [csl_rows]; [simpl; eauto|].
  unfold bind at 1. destruct row as [|f fs].
  - simpl. now apply (IH _ w x l).
  - unfold bind at 1, lift.
    destruct (Record.from_list (map strip (f :: fs))) as [r|e]; [|simpl; eauto].
    destruct (keep_all_keeps_head w r x l Hm Hl) as (Hm' & l' & Hl').
    pose proof (add_or_merge_record_returns w r) as Hok.
    destruct (add_or_merge_record r w) as [[[]|e] w1]; simpl in *;
      [|discriminate].
    now apply (IH _ w1 x l').
Qed.

Lemma header_lines rest_text :
  PyFile.readlines
    (PyFile.universal_newlines
       (HEADER +:+ String PyFile.LF EmptyString +:+ rest_text))
  = banner_line :: legend_line
      :: PyFile.readlines (PyFile.universal_newlines rest_text).
Proof. reflexivity. Qed.

Lemma header_rows lines :
  csv.reader (banner_line :: legend_line :: lines)
  = (["# Minos CSL Utility by G4CTP v0.7"]
       :: ["# <Callsign>"; " <Locator>"; " <Exchange>"; " <Comment>"]
       :: fst (csv.reader lines),
     snd (csv.reader lines)).
Proof.
  unfold csv.reader.
  change (csv.read_rows csv.fresh (banner_line :: legend_line :: lines))
    with (let '(rows, e) :=
            (let '(rows, e) := csv.read_rows csv.fresh lines in
             (["# <Callsign>"; " <Locator>"; " <Exchange>"; " <Comment>"]
                :: rows, e)) in
          (["# Minos CSL Utility by G4CTP v0.7"] :: rows, e)).
  now destruct (csv.read_rows csv.fresh lines).
Qed.

Lemma reloaded_csl_starts_with_legend_row_aux rest_text files path :
  files !! path
  = Some (HEADER +:+ String PyFile.LF EmptyString +:+ rest_text) ->
  exists rest,
    records (self (snd (load_csl path None (fresh_world files))))
    = legend_record :: rest.
Proof.
  intros Hf. unfold load_csl, PyFile.getsize, PyFile.read.
  unfold bind at 1. simpl disk. rewrite Hf.
  unfold bind at 1. simpl disk. rewrite Hf.
  rewrite header_lines, header_rows.
  set (lines := PyFile.readlines (PyFile.universal_newlines rest_text)).
  set (total := length (banner_line :: legend_line :: lines)).
  change (startswith "# Minos CSL Utility by G4CTP v0.7" "#") with true.
  cbv beta iota. change (negb true) with false. cbv iota.
  unfold bind at 1. unfold ret at 1. cbn [csl_rows].
  change (Record.from_list
            (map strip ["# <Callsign>"; " <Locator>"; " <Exchange>"; " <Comment>"]))
    with (Ok legend_record).
  assert (H1 : (r <- lift (Ok legend_record);; add_or_merge_record r)
                 (fresh_world files)
               = (Ok tt, committed (fresh_world files) [legend_record])).
  { unfold bind, lift. now rewrite keep_all_step. }
  unfold bind at 1. rewrite (bind_ok _ _ _ _ _ H1).
  unfold bind at 1. cbn [report ret].
  destruct (csl_rows_keep_head total (fst (csv.reader lines)) 1
              (committed (fresh_world files) [legend_record]) legend_record []
              eq_refl eq_refl) as [l' Hl'].
  destruct (csl_rows None total 1 (fst (csv.reader lines))
              (committed (fresh_world files) [legend_record]))
    as [[[]|e] w3]; simpl in Hl'; [|simpl; eauto].
  destruct (snd (csv.reader lines)); simpl; eauto.
Qed.

(** C1, what the code does instead. Whatever the store holds, saving it
    and loading the saved file into a fresh engine (Keep-All, filter off)
    gives a store whose first record is the column legend of the header:
    the loader skips the banner line only. *)
Theorem reloaded_csl_starts_with_legend_row w path :
  faults w !! path = None ->
  let saved := snd (save_csl path w) in
  let reloaded := snd (load_csl path None (fresh_world (disk saved))) in
  exists rest, records (self reloaded) = legend_record :: rest.
Proof.
  intros Hf saved reloaded. subst saved reloaded.
  pose proof (save_csl_cases w path) as Hs. simpl in Hs. rewrite Hf in Hs.
  rewrite Hs. simpl disk.
  eapply reloaded_csl_starts_with_legend_row_aux. apply lookup_insert_eq.
Qed.

Lemma reloaded_csl_starts_with_legend_row_witness :
  faults (fresh_world ∅) !! "out.csl" = None
  /\ records (self (fresh_world ∅)) = []
  /\ exists rest,
       records
         (self (snd (load_csl "out.csl" None
                       (fresh_world
                          (disk (snd (save_csl "out.csl" (fresh_world ∅))))))))
       = legend_record :: rest.
Proof.
  split; [reflexivity|]. split; [reflexivity|].
  exact (reloaded_csl_starts_with_legend_row (fresh_world ∅) "out.csl" eq_refl).
Defined.

Example empty_store_reloads_as_one_record :
  records
    (self (snd (load_csl "out.csl" None
                  (fresh_world
                     (disk (snd (save_csl "out.csl" (fresh_world ∅))))))))
  = [legend_record].
Proof. vm_compute. reflexivity. Qed.

Example one_record_reloads_as_two :
  records
    (self (snd (load_csl "out.csl" None
                  (fresh_world (disk (snd (save_csl "out.csl" observed_world)))))))
  = [legend_record; g4ctp].
Proof. vm_compute. reflexivity. Qed.

(** * Further properties *)

(** ** Value equality *)

Lemma record_eqb_trans r s t :
  Record.eqb r s = true -> Record.eqb s t = true -> Record.eqb r t = true.
Proof.
  unfold Record.eqb. rewrite !andb_true_iff, !String.eqb_eq.
  intros [[[H1 H2] H3] H4] [[[K1 K2] K3] K4]. repeat split; congruence.
Qed.

(** X1. Value equality of records ([__eq__]) is reflexive, symmetric and
    transitive, and it holds exactly when the callsigns agree in upper
    case and locator, exchange and comment agree after stripping. *)
Theorem record_equality_is_an_equivalence :
  (forall r, Record.eqb r r = true)
  /\ (forall r s, Record.eqb r s = Record.eqb s r)
  /\ (forall r s t,
        Record.eqb r s = true -> Record.eqb s t = true ->
        Record.eqb r t = true)
  /\ (forall r s,
        Record.eqb r s = true <->
        upper (callsign r) = upper (callsign s)
        /\ strip (locator r) = strip (locator s)
        /\ strip (exchange r) = strip (exchange s)
        /\ strip (comment r) = strip (comment s)).
Proof.
  split; [apply record_eqb_refl|]. split; [apply record_eqb_sym|].
  split; [apply record_eqb_trans|].
  intros r s. unfold Record.eqb. rewrite !andb_true_iff, !String.eqb_eq.
  tauto.
Qed.

Lemma record_equality_is_an_equivalence_witness :
  Record.eqb g4ctp g4ctp_padded = true
  /\ Record.eqb g4ctp_padded (mkRecord "G4CTP" "IO91  " " " "first") = true
  /\ Record.eqb g4ctp (mkRecord "G4CTP" "IO91  " " " "first") = true.
Proof.
  split; [reflexivity|]. split; [reflexivity|].
  exact (proj1 (proj2 (proj2 record_equality_is_an_equivalence))
           g4ctp g4ctp_padded (mkRecord "G4CTP" "IO91  " " " "first")
           eq_refl eq_refl).
Defined.

(** ** Building a record from a list *)

(** X2. [from_list] undoes [to_list]. On any list it returns a record
    exactly for one to four fields: four fields are kept as they are, of
    one to three fields only the first is kept and the others become
    empty; the empty list raises [ValueError] and more than four fields
    raise [TypeError]. *)
Theorem from_list_outcome :
  (forall r, Record.from_list (Record.to_list r) = Ok r)
  /\ (forall data,
        match Record.from_list data with
        | Ok r =>
            (1 <= length data <= 4)%nat
            /\ Record.to_list r
               = (if (length data =? 4)%nat then data
                  else [default "" (head data); ""; ""; ""])
        | Raise e =>
            (data = []
             /\ e = ValueError "Cannot create ContestRecord from empty data")
            \/ ((4 < length data)%nat /\ exists m, e = TypeError m)
        end).
Proof.
  split; [now intros []|].
  intros data. destruct data as [|a [|b [|c [|d [|x rest]]]]]; simpl;
    try (split; [lia | reflexivity]).
  - left. auto.
  - right. split; [lia | eauto].
Qed.

(** ** More on the reconciliation entry point *)

(** The three shapes of an accepted call, by policy and first match *)
Lemma accepted_shapes w r :
  accepted (self w) r = true ->
  exists l,
    add_or_merge_record r w = (Ok tt, committed w l)
    /\ ((merge_mode (self w) = KEEP_ALL
         /\ l = (if PyList.contains (records (self w)) r
                 then records (self w) else records (self w) ++ [r]))
        \/ (merge_mode (self w) <> KEEP_ALL
            /\ Forall (fun x => Record.same_call r x = false) (records (self w))
            /\ l = records (self w) ++ [r])
        \/ (exists (pre post : list ContestRecord) x,
              records (self w) = pre ++ x :: post
              /\ Forall (fun y => Record.same_call r y = false) pre
              /\ Record.same_call r x = true
              /\ ((merge_mode (self w) = KEEP_RECENT
                   /\ l = pre ++ post ++ [r])
                  \/ (merge_mode (self w) = SMART_MERGE
                      /\ l = pre ++ merged_record x r :: post)))).
Proof.
  intros Ha.
  destruct (merge_mode (self w)) eqn:Hm.
  - eexists. split; [now apply keep_all_step|]. left. auto.
  - destruct (List.filter (Record.same_call r) (records (self w)))
      as [|x xs] eqn:Hf.
    + apply filter_none in Hf. eexists.
      split; [now apply keep_recent_step_new|]. right. left.
      repeat split; auto; discriminate.
    + apply filter_first_split in Hf as (pre & post & Hl & Hpre & Hx).
      eexists. split; [eapply keep_recent_step_match; eauto|].
      right. right. exists pre, post, x. repeat split; auto.
  - destruct (List.filter (Record.same_call r) (records (self w)))
      as [|x xs] eqn:Hf.
    + apply filter_none in Hf. eexists.
      split; [now apply smart_merge_step_new|]. right. left.
      repeat split; auto; discriminate.
    + apply filter_first_split in Hf as (pre & post & Hl & Hpre & Hx).
      eexists. split; [eapply smart_merge_step_match; eauto|].
      right. right. exists pre, post, x. repeat split; auto.
Qed.

Lemma add_or_merge_record_frame w r :
  let w' := snd (add_or_merge_record r w) in
  merge_mode (self w') = merge_mode (self w)
  /\ remove_callsign_only (self w') = remove_callsign_only (self w)
  /\ observers (self w') = observers (self w)
  /\ current_file (self w') = current_file (self w)
  /\ delivered w' = delivered w
  /\ disk w' = disk w
  /\ faults w' = faults w.
Proof.
  destruct (accepted (self w) r) eqn:Ha.
  - destruct (accepted_committed w r Ha) as [l ->]. simpl. repeat split.
  - rewrite rejected_unchanged by assumption. simpl. repeat split.
Qed.

(** X3. The entry point never raises (its [list.remove] and [list.index]
    always find their argument) and it touches nothing but the record
    list, the dirty flag and the notification log: policy, filter,
    observers, current file, progress sink and files are as before. *)
Theorem entry_point_frame w r :
  let w' := snd (add_or_merge_record r w) in
  fst (add_or_merge_record r w) = Ok tt
  /\ merge_mode (self w') = merge_mode (self w)
  /\ remove_callsign_only (self w') = remove_callsign_only (self w)
  /\ observers (self w') = observers (self w)
  /\ current_file (self w') = current_file (self w)
  /\ delivered w' = delivered w
  /\ disk w' = disk w
  /\ faults w' = faults w.
Proof.
  split; [apply add_or_merge_record_returns | apply add_or_merge_record_frame].
Qed.

(** X4. One call of the entry point never shortens the store and
    lengthens it by at most one record, under every policy. *)
Theorem entry_point_grows_by_at_most_one w r :
  let n := length (records (self w)) in
  let n' := length (records (self (snd (add_or_merge_record r w)))) in
  (n <= n' <= n + 1)%nat.
Proof.
  cbv zeta. destruct (accepted (self w) r) eqn:Ha.
  - destruct (accepted_shapes w r Ha) as (l & -> & Hl). simpl.
    destruct Hl as [[_ ->] | [(_ & _ & ->) |
      (pre & post & x & Hw & _ & _ & [[_ ->] | [_ ->]])]];
      rewrite ?Hw; repeat (rewrite ?length_app; simpl); try lia.
    destruct (PyList.contains _ r); rewrite ?length_app; simpl; lia.
  - rewrite rejected_unchanged by assumption. simpl. lia.
Qed.

Lemma accepted_stores_callsign w r :
  accepted (self w) r = true ->
  exists x,
    x ∈ records (self (snd (add_or_merge_record r w)))
    /\ upper (callsign x) = upper (callsign r).
Proof.
  intros Ha.
  destruct (accepted_shapes w r Ha) as (l & -> & Hl). simpl.
  destruct Hl as [[_ ->] | [(_ & _ & ->) |
    (pre & post & x & Hw & _ & Hx & [[_ ->] | [_ ->]])]].
  - destruct (PyList.contains (records (self w)) r) eqn:Hin.
    + unfold PyList.contains in Hin. apply existsb_exists in Hin as (x & Hx & He).
      exists x. split; [now apply list_elem_of_In|].
      unfold Record.eqb in He. rewrite !andb_true_iff in He.
      now apply String.eqb_eq.
    + exists r. split; [|reflexivity]. apply elem_of_app. right. constructor.
  - exists r. split; [|reflexivity]. apply elem_of_app. right. constructor.
  - exists r. split; [|reflexivity]. rewrite !elem_of_app. right. right.
    constructor.
  - exists (merged_record x r). split.
    + apply elem_of_app. right. constructor.
    + simpl. now apply same_call_true.
Qed.

(** X7. After the entry point has accepted a record (non-empty callsign,
    not dropped by the filter), the store holds a record with that
    callsign, under every policy: no contact is lost. *)
Theorem accepted_callsign_is_stored w r :
  callsign r <> "" ->
  (remove_callsign_only (self w) = true ->
   Record.has_more_than_callsign r = true) ->
  exists x,
    x ∈ records (self (snd (add_or_merge_record r w)))
    /\ upper (callsign x) = upper (callsign r).
Proof.
  intros Hc Hf. apply accepted_stores_callsign, accepted_iff. auto.
Qed.

Lemma accepted_callsign_is_stored_witness :
  callsign g4ctp_update <> ""
  /\ exists x,
       x ∈ records (self (snd (add_or_merge_record g4ctp_update smart_world)))
       /\ upper (callsign x) = upper (callsign g4ctp_update).
Proof.
  split; [discriminate|].
  apply accepted_callsign_is_stored; [discriminate | intros _; reflexivity].
Defined.

(** X8. The callsign-only filter: a record with a callsign and blank
    locator, exchange and comment leaves the whole world as it was when
    the filter is on (no flag, no notification); when the filter is off
    the flag is set and the store holds its callsign. *)
Theorem callsign_only_filter w r :
  callsign r <> "" ->
  Record.has_more_than_callsign r = false ->
  (remove_callsign_only (self w) = true ->
   add_or_merge_record r w = (Ok tt, w))
  /\ (remove_callsign_only (self w) = false ->
      has_unsaved_changes (self (snd (add_or_merge_record r w))) = true
      /\ exists x,
           x ∈ records (self (snd (add_or_merge_record r w)))
           /\ upper (callsign x) = upper (callsign r)).
Proof.
  intros Hc Hm. split; intros Hf.
  - apply rejected_unchanged. unfold accepted. rewrite Hf, Hm.
    apply andb_false_r.
  - assert (Ha : accepted (self w) r = true)
      by (apply accepted_iff; split; [auto | congruence]).
    split; [|now apply accepted_stores_callsign].
    destruct (accepted_committed w r Ha) as [l ->]. reflexivity.
Qed.

Lemma callsign_only_filter_witness :
  callsign callsign_only <> ""
  /\ Record.has_more_than_callsign callsign_only = false
  /\ add_or_merge_record callsign_only smart_world = (Ok tt, smart_world)
  /\ records (self (snd (add_or_merge_record callsign_only recent_world)))
     = [callsign_only].
Proof.
  split; [discriminate|]. split; [reflexivity|].
  destruct (callsign_only_filter smart_world callsign_only) as [Hon _];
    [discriminate | reflexivity |].
  split; [exact (Hon eq_refl) | reflexivity].
Defined.

(** ** One record per callsign under the merging policies *)

Lemma not_same_call_keys r (l : list ContestRecord) :
  Forall (fun x => Record.same_call r x = false) l <->
  upper (callsign r) ∉ call_keys l.
Proof.
  unfold call_keys. rewrite Forall_forall, list_elem_of_In, in_map_iff. split.
  - intros H (x & Hk & Hx). apply list_elem_of_In in Hx. specialize (H x Hx).
    apply same_call_false in H. congruence.
  - intros H x Hx. apply same_call_false. intros Hk. apply H.
    exists x. split; [exact Hk | now apply list_elem_of_In].
Qed.

Lemma call_keys_app l k : call_keys (l ++ k) = call_keys l ++ call_keys k.
Proof. unfold call_keys. apply map_app. Qed.

Lemma merging_keeps_keys_distinct w r :
  merge_mode (self w) <> KEEP_ALL ->
  NoDup (call_keys (records (self w))) ->
  NoDup (call_keys (records (self (snd (add_or_merge_record r w))))).
Proof.
  intros Hm Hn. destruct (accepted (self w) r) eqn:Ha;
    [|now rewrite rejected_unchanged].
  destruct (accepted_shapes w r Ha) as (l & -> & Hl). simpl.
  destruct Hl as [[Hk _] | [(_ & Hnone & ->) |
    (pre & post & x & Hw & Hpre & Hx & [[_ ->] | [_ ->]])]].
  - contradiction.
  - rewrite call_keys_app. apply NoDup_app. split; [exact Hn|].
    split; [|apply NoDup_singleton].
    intros k Hk Hr. apply list_elem_of_singleton in Hr. subst k.
    now apply not_same_call_keys in Hnone.
  - rewrite Hw in Hn. rewrite call_keys_app in *. simpl in Hn.
    rewrite call_keys_app. simpl.
    apply same_call_true in Hx. rewrite <- Hx.
    assert (P : call_keys pre ++ upper (callsign x) :: call_keys post
                ≡ₚ call_keys pre ++ call_keys post ++ [upper (callsign x)])
      by apply Permutation_app_head, Permutation_cons_append.
    now rewrite <- P.
  - rewrite Hw in Hn. rewrite call_keys_app in *. exact Hn.
Qed.

Lemma merging_invariant c w :
  avoids_keep_all c = true ->
  merge_mode (self w) <> KEEP_ALL ->
  NoDup (call_keys (records (self w))) ->
  fst (perform c w) = Ok tt
  /\ merge_mode (self (snd (perform c w))) <> KEEP_ALL
  /\ NoDup (call_keys (records (self (snd (perform c w))))).
Proof.
  intros Hc Hm Hinv. destruct c as [mode|value|cb|r|]; simpl.
  - destruct mode; try discriminate; unfold_monad; simpl;
      repeat split; auto; discriminate.
  - unfold_monad. simpl. auto.
  - unfold_monad. simpl. auto.
  - split; [apply add_or_merge_record_returns|].
    split; [|now apply merging_keeps_keys_distinct].
    destruct (accepted (self w) r) eqn:Ha.
    + destruct (accepted_committed w r Ha) as [l ->]. exact Hm.
    + now rewrite rejected_unchanged.
  - unfold_monad. simpl.
    destruct (records (self w)); simpl; repeat split; auto; constructor.
Qed.

(** X5. A store that starts empty and is changed only while
    Keep-Most-Recent or Smart-Merge is in force holds at most one record
    per callsign (callsigns compared in upper case). *)
Theorem merging_policies_keep_one_record_per_callsign calls w :
  records (self w) = [] ->
  merge_mode (self w) <> KEEP_ALL ->
  forallb avoids_keep_all calls = true ->
  NoDup (call_keys (records (self (snd (run calls w))))).
Proof.
  intros Hl Hm Hc.
  assert (Hinv : NoDup (call_keys (records (self w))))
    by (rewrite Hl; constructor).
  clear Hl. revert w Hm Hinv.
  induction calls as [|c calls IH]; intros w Hm Hinv; [exact Hinv|].
  simpl in Hc. apply andb_true_iff in Hc as [Hc Hcs].
  destruct (merging_invariant c w Hc Hm Hinv) as (Hok & Hm' & Hinv').
  rewrite run_cons. destruct (perform c w) as [[[]|e] w']; simpl in *;
    [|discriminate].
  now apply IH.
Qed.

Lemma merging_policies_keep_one_record_per_callsign_witness :
  records (self recent_world) = []
  /\ records
       (self (snd (run [AddOrMerge g4ctp; AddOrMerge m0xyz;
                        SetMergeMode SMART_MERGE; AddOrMerge g4ctp_update;
                        AddOrMerge g4ctp_padded] recent_world)))
     = [mkRecord "G4ctp" " IO91 " "59001" "first "; m0xyz]
  /\ NoDup (call_keys [mkRecord "G4ctp" " IO91 " "59001" "first "; m0xyz]).
Proof.
  split; [reflexivity|].
  assert (H := merging_policies_keep_one_record_per_callsign
                 [AddOrMerge g4ctp; AddOrMerge m0xyz;
                  SetMergeMode SMART_MERGE; AddOrMerge g4ctp_update;
                  AddOrMerge g4ctp_padded] recent_world eq_refl
                 ltac:(discriminate) eq_refl).
  split; [vm_compute; reflexivity | exact H].
Defined.

(** ** Adding the same record again *)

Lemma merged_record_again x r :
  merged_record (merged_record x r) r = merged_record x r.
Proof.
  unfold merged_record. simpl.
  destruct (truthy (strip (locator r))), (truthy (strip (exchange r))),
    (truthy (strip (comment r))); reflexivity.
Qed.

Lemma merged_record_self r : merged_record r r = r.
Proof.
  destruct r as [c l e m]. unfold merged_record. simpl.
  destruct (truthy (strip l)), (truthy (strip e)), (truthy (strip m));
    reflexivity.
Qed.

Lemma contains_snoc l r : PyList.contains (l ++ [r]) r = true.
Proof.
  unfold PyList.contains. rewrite existsb_app. simpl.
  rewrite record_eqb_refl. apply orb_true_iff. right. reflexivity.
Qed.

Lemma same_call_refl r : Record.same_call r r = true.
Proof. apply String.eqb_refl. Qed.

Lemma accepted_committed_again w r l :
  accepted (self (committed w l)) r = accepted (self w) r.
Proof. reflexivity. Qed.

Lemma run_adds_snd rs w :
  snd (run (map AddOrMerge rs) w)
  = fold_left (fun w0 r => snd (add_or_merge_record r w0)) rs w.
Proof.
  revert w. induction rs as [|r rs IH]; intros w; [reflexivity|].
  cbn [map fold_left]. rewrite run_cons. cbn [perform].
  pose proof (add_or_merge_record_returns w r) as Hok.
  destruct (add_or_merge_record r w) as [[[]|e] w1]; simpl in Hok;
    [apply IH | discriminate].
Qed.

(** X6. Under Keep-All and under Smart-Merge, adding the same record
    twice leaves the same store as adding it once. *)
Theorem adding_twice_is_adding_once w r :
  merge_mode (self w) <> KEEP_RECENT ->
  records (self (snd (run [AddOrMerge r; AddOrMerge r] w)))
  = records (self (snd (run [AddOrMerge r] w))).
Proof.
  intros Hm.
  change [AddOrMerge r; AddOrMerge r] with (map AddOrMerge [r; r]).
  change [AddOrMerge r] with (map AddOrMerge [r]).
  rewrite !run_adds_snd. cbn [fold_left].
  destruct (accepted (self w) r) eqn:Ha.
  2:{ rewrite (rejected_unchanged w r Ha). cbn [snd].
      now rewrite (rejected_unchanged w r Ha). }
  destruct (accepted_shapes w r Ha) as (l & -> & Hl). cbn [snd].
  assert (Ha' : accepted (self (committed w l)) r = true) by exact Ha.
  destruct Hl as [[Hk ->] | [(Hnk & Hnone & ->) |
    (pre & post & x & Hw & Hpre & Hx & [[Hk _] | [Hk ->]])]].
  - rewrite keep_all_step by assumption. simpl.
    destruct (PyList.contains (records (self w)) r) eqn:Hin.
    + now rewrite Hin.
    + now rewrite contains_snoc.
  - destruct (merge_mode (self w)) eqn:Hmode; try contradiction.
    rewrite (smart_merge_step_match _ r (records (self w)) r []);
      auto using same_call_refl.
    simpl. now rewrite merged_record_self.
  - contradiction.
  - rewrite (smart_merge_step_match _ r pre (merged_record x r) post);
      auto.
    simpl. now rewrite merged_record_again.
Qed.

Lemma adding_twice_is_adding_once_witness :
  merge_mode (self smart_world) <> KEEP_RECENT
  /\ records (self (snd (run [AddOrMerge g4ctp_update; AddOrMerge g4ctp_update]
                           smart_world)))
     = [m0xyz; mkRecord "G4ctp" "IO91" "59001" "first"].
Proof.
  split; [discriminate|].
  rewrite (adding_twice_is_adding_once smart_world g4ctp_update);
    [reflexivity | discriminate].
Defined.

(** Under Keep-Most-Recent a second copy can displace another record. *)
Example keep_recent_is_not_idempotent :
  let w := mkWorld (mkManager [g4ctp; g4ctp_padded] None KEEP_RECENT false []
                      false) [] [] ∅ ∅ in
  records (self (snd (run [AddOrMerge g4ctp_update] w)))
  = [g4ctp_padded; g4ctp_update]
  /\ records (self (snd (run [AddOrMerge g4ctp_update; AddOrMerge g4ctp_update]
                           w)))
     = [g4ctp_update; g4ctp_update].
Proof. split; reflexivity. Qed.

(** ** Keep-Most-Recent on any store *)

(** X9. Keep-Most-Recent on any store: the first record with the
    incoming callsign, if there is one, is removed, the others keep their
    order, and the incoming record becomes the last record. *)
Theorem keep_recent_moves_to_the_end w new_record :
  merge_mode (self w) = KEEP_RECENT ->
  callsign new_record <> "" ->
  (remove_callsign_only (self w) = true ->
   Record.has_more_than_callsign new_record = true) ->
  let stored := records (self (snd (add_or_merge_record new_record w))) in
  (forall (pre post : list ContestRecord) existing,
     records (self w) = pre ++ existing :: post ->
     Forall (fun r => upper (callsign r) <> upper (callsign new_record)) pre ->
     upper (callsign existing) = upper (callsign new_record) ->
     stored = pre ++ post ++ [new_record])
  /\ (Forall (fun r => upper (callsign r) <> upper (callsign new_record))
        (records (self w)) ->
      stored = records (self w) ++ [new_record])
  /\ last stored = Some new_record.
Proof.
  intros Hm Hc Hf stored. subst stored.
  assert (Ha : accepted (self w) new_record = true) by (apply accepted_iff; auto).
  split; [|split].
  - intros pre post existing Hl Hpre Hx.
    apply not_same_call_Forall in Hpre. apply same_call_true in Hx.
    now rewrite (keep_recent_step_match w new_record pre existing post).
  - intros Hn. apply not_same_call_Forall in Hn.
    now rewrite keep_recent_step_new.
  - destruct (accepted_shapes w new_record Ha) as (l & -> & Hl). simpl.
    destruct Hl as [[Hk _] | [(_ & _ & ->) |
      (pre & post & x & _ & _ & _ & [[_ ->] | [Hk _]])]]; try congruence.
    + apply last_snoc.
    + rewrite app_assoc. apply last_snoc.
Qed.

Lemma keep_recent_moves_to_the_end_witness :
  merge_mode
    (self (mkWorld (mkManager [g4ctp; m0xyz] None KEEP_RECENT false [] false)
             [] [] ∅ ∅)) = KEEP_RECENT
  /\ callsign g4ctp_update <> ""
  /\ records
       (self (snd (add_or_merge_record g4ctp_update
                     (mkWorld (mkManager [g4ctp; m0xyz] None KEEP_RECENT false
                                 [] false) [] [] ∅ ∅))))
     = [m0xyz; g4ctp_update].
Proof.
  split; [reflexivity|]. split; [discriminate|].
  refine (proj1 (keep_recent_moves_to_the_end
                   (mkWorld (mkManager [g4ctp; m0xyz] None KEEP_RECENT false
                               [] false) [] [] ∅ ∅)
                   g4ctp_update eq_refl _ _) [] [m0xyz] g4ctp eq_refl _ eq_refl).
  - discriminate.
  - intros H. discriminate H.
  - constructor.
Defined.

(** ** Stripping *)

Lemma lstrip_head s :
  lstrip s = "" \/ exists c t, lstrip s = String c t /\ isspace c = false.
Proof.
  induction s as [|c s IH]; simpl; [auto|].
  destruct (isspace c) eqn:E; [exact IH|]. right. eauto.
Qed.

Lemma rstrip_cons_nonspace c t :
  isspace c = false -> rstrip (String c t) = String c (rstrip t).
Proof. intros H. simpl. destruct (rstrip t); [now rewrite H | reflexivity]. Qed.

Lemma rstrip_idempotent s : rstrip (rstrip s) = rstrip s.
Proof.
  induction s as [|c s IH]; [reflexivity|]. simpl.
  destruct (rstrip s) as [|d t] eqn:E.
  - destruct (isspace c) eqn:Hc; [reflexivity|]. simpl. now rewrite Hc.
  - change (rstrip (String c (String d t))) with
      (match rstrip (String d t) with
       | EmptyString => if isspace c then EmptyString else String c EmptyString
       | u => String c u
       end).
    now rewrite IH.
Qed.

Lemma strip_idempotent s : strip (strip s) = strip s.
Proof.
  unfold strip. destruct (lstrip_head s) as [-> | (c & t & -> & Hc)];
    [reflexivity|].
  rewrite (rstrip_cons_nonspace c t Hc). cbn [lstrip]. rewrite Hc.
  rewrite <- (rstrip_cons_nonspace c t Hc). apply rstrip_idempotent.
Qed.

Lemma extract_adif_field_stripped qso field :
  strip (extract_adif_field qso field) = extract_adif_field qso field.
Proof.
  unfold extract_adif_field.
  destruct (find (upper qso) ("<" +:+ upper field) =? -1); [reflexivity|].
  destruct (find_from qso ">" _ =? -1); [reflexivity|].
  destruct (split ":" _ !! 1%nat); [|reflexivity].
  destruct (int _); [apply strip_idempotent | reflexivity].
Qed.

Lemma from_list_stripped row r :
  Record.from_list (map strip row) = Ok r ->
  strip (callsign r) = callsign r.
Proof.
  destruct row as [|a [|b [|c [|d [|x rest]]]]]; simpl; try discriminate;
    intros [= <-]; apply strip_idempotent.
Qed.

(** ** What every load keeps *)

Section LoadInvariant.

Variable R : World -> World -> Prop.
Variable progress_callback : option callback.
Hypothesis HR : load_invariant R progress_callback.

Lemma inv_bind {A B} (m : M A) (k : A -> M B) :
  relates R m -> (forall a, relates R (k a)) -> relates R (bind m k).
Proof.
  intros Hm Hk w. unfold bind. specialize (Hm w).
  destruct (m w) as [[a|e] w1]; simpl in *; [|exact Hm].
  eapply (inv_trans R _ HR); [exact Hm | apply Hk].
Qed.

Lemma inv_try_except {A} (m : M A) (h : exn -> M A) :
  relates R m -> (forall e, relates R (h e)) -> relates R (try_except m h).
Proof.
  intros Hm Hh w. unfold try_except. specialize (Hm w).
  destruct (m w) as [[a|e] w1]; simpl in *; [exact Hm|].
  eapply (inv_trans R _ HR); [exact Hm | apply Hh].
Qed.

Lemma inv_same {A} (m : M A) :
  (forall w, self (snd (m w)) = self w) -> relates R m.
Proof. intros H w. apply (inv_frame R _ HR), H. Qed.

Lemma inv_ret {A} (a : A) : relates R (ret a).
Proof. now apply inv_same. Qed.

Lemma inv_raise {A} e : relates R (@raise A e).
Proof. now apply inv_same. Qed.

Lemma inv_lift {A} (r : result A) : relates R (lift r).
Proof. now apply inv_same. Qed.

Lemma inv_getsize path : relates R (PyFile.getsize path).
Proof.
  apply inv_same. intros w. unfold PyFile.getsize.
  now destruct (disk w !! path).
Qed.

Lemma inv_read path : relates R (PyFile.read path).
Proof.
  apply inv_same. intros w. unfold PyFile.read. now destruct (disk w !! path).
Qed.

Lemma inv_raise_pending e : relates R (raise_pending e).
Proof. destruct e; [apply inv_raise | apply inv_ret]. Qed.

Lemma inv_bounded q : relates R (bounded_progress progress_callback q).
Proof.
  unfold bounded_progress.
  assert (H : forall pc : option callback,
             (forall cb, pc = Some cb -> forall p, relates R (cb p)) ->
             relates R (match pc with
                        | Some cb => cb (PyNum.min (PyNum.max q 0) 100)
                        | None => ret tt
                        end)).
  { intros pc Hpc. destruct pc as [cb|]; [now apply Hpc | apply inv_ret]. }
  apply H, (inv_callback R _ HR).
Qed.

Lemma inv_report percentage :
  relates R
    (report (Some (bounded_progress progress_callback)) percentage).
Proof.
  simpl. apply inv_bind; [apply inv_lift | intros q; apply inv_bounded].
Qed.

Let bounded := Some (bounded_progress progress_callback).

Lemma inv_lift_bind {A B} (res : result A) (k : A -> M B) :
  (forall a, res = Ok a -> relates R (k a)) -> relates R (bind (lift res) k).
Proof.
  intros H. destruct res as [a|e].
  - intros w. apply (H a eq_refl).
  - now apply inv_same.
Qed.

Lemma inv_add_stripped s l e c :
  relates R (add_or_merge_record (mkRecord (strip s) l e c)).
Proof. apply (inv_add R _ HR). apply strip_idempotent. Qed.

Lemma inv_csl_rows total rows :
  forall processed, relates R (csl_rows bounded total processed rows).
Proof.
  induction rows as [|row rest IH]; intros processed; cbn [csl_rows];
    [apply inv_ret|].
  apply inv_bind; [|intros _; apply inv_bind; [apply inv_report|intros; apply IH]].
  destruct row as [|f fs]; [apply inv_ret|].
  apply inv_lift_bind. intros r Hr.
  apply (inv_add R _ HR). eapply from_list_stripped; eauto.
Qed.

Lemma inv_load_csl filename : relates R (load_csl filename bounded).
Proof.
  unfold load_csl.
  apply inv_bind; [apply inv_getsize|]. intros _.
  apply inv_bind; [apply inv_read|]. intros text.
  destruct (csv.reader (PyFile.readlines text)) as [rows pending].
  destruct rows as [|first_line rest]; [apply inv_raise_pending|].
  apply inv_bind.
  - destruct first_line as [|first more]; [apply inv_ret|].
    destruct (negb (startswith first "#")); [|apply inv_ret].
    apply inv_lift_bind. intros r Hr.
    apply inv_bind; [apply (inv_add R _ HR); eapply from_list_stripped; eauto|].
    intros _. apply inv_bind; [apply inv_report | intros; apply inv_ret].
  - intros processed.
    apply inv_bind; [apply inv_csl_rows | intros; apply inv_raise_pending].
Qed.

Lemma inv_edi_comments total lines :
  forall processed in_remarks comments,
    relates R (edi_comments bounded total processed in_remarks comments lines).
Proof.
  induction lines as [|line rest IH]; intros processed in_remarks comments;
    cbn [edi_comments]; [apply inv_ret|].
  apply inv_bind; [apply inv_report|]. intros _.
  destruct (startswith (strip line) "[Remarks]"); [apply IH|].
  destruct (startswith (strip line) "[QSORecords;"); apply IH.
Qed.

Lemma inv_edi_qsos total lines :
  forall processed in_qso_section comments,
    relates R (edi_qsos bounded total processed in_qso_section comments lines).
Proof.
  induction lines as [|line rest IH]; intros processed in_qso_section comments;
    cbn [edi_qsos]; [apply inv_ret|].
  apply inv_bind; [apply inv_report|]. intros _.
  destruct (startswith (strip line) "[QSORecords;"); [apply IH|].
  destruct (startswith (strip line) "[END;"); [apply inv_ret|].
  apply inv_bind; [|intros; apply IH].
  destruct (_ && _ && _); [apply inv_add_stripped | apply inv_ret].
Qed.

Lemma inv_load_edi filename : relates R (load_edi filename bounded).
Proof.
  unfold load_edi.
  apply inv_bind; [apply inv_getsize|]. intros _.
  apply inv_bind; [apply inv_read|]. intros text.
  apply inv_bind; [apply inv_edi_comments | intros; apply inv_edi_qsos].
Qed.

Lemma inv_adif_loop total fuel :
  forall processed qsos,
    relates R (adif_loop fuel bounded total processed qsos).
Proof.
  induction fuel as [|fuel IH]; intros processed qsos; cbn [adif_loop];
    [apply inv_ret|].
  destruct (truthy (strip qsos)); [|apply inv_ret].
  destruct (find qsos "<EOR>" =? -1); [apply inv_ret|].
  apply inv_bind; [apply inv_report|]. intros _.
  apply inv_bind; [|intros; apply IH].
  cbn [callsign]. destruct (truthy _); [|apply inv_ret].
  apply (inv_add R _ HR). apply extract_adif_field_stripped.
Qed.

Lemma inv_load_adif filename : relates R (load_adif filename bounded).
Proof.
  unfold load_adif.
  apply inv_bind; [apply inv_getsize|]. intros _.
  apply inv_bind; [apply inv_read|]. intros content. apply inv_adif_loop.
Qed.

Lemma get_stripped_ok qso_data key s :
  get_stripped qso_data key = Ok s -> strip s = s.
Proof.
  unfold get_stripped. destruct (qso_data !! Some key) as [[t|]|];
    try discriminate; intros [= <-]; apply strip_idempotent.
Qed.

Lemma inv_minos_iqs total iqs :
  forall processed qso_count,
    relates R (minos_iqs bounded total processed qso_count iqs).
Proof.
  induction iqs as [|iq rest IH]; intros processed qso_count; cbn [minos_iqs];
    [apply inv_ret|].
  apply inv_bind; [apply inv_report|]. intros _.
  apply inv_bind; [|intros; apply IH].
  destruct (qso_params iq) as [params|]; [|apply inv_ret].
  destruct (is_truthy _); [|apply inv_ret].
  apply inv_lift_bind. intros c Hc.
  apply inv_bind; [apply inv_lift|]. intros l.
  apply inv_bind; [apply inv_lift|]. intros e.
  apply inv_bind; [|intros; apply inv_ret].
  apply (inv_add R _ HR). simpl. eapply get_stripped_ok; eauto.
Qed.

Variable fromstring : string -> result ET.Element.

Lemma inv_load_minos filename :
  relates R (load_minos fromstring filename bounded).
Proof.
  unfold load_minos.
  apply inv_try_except; [|intros e; destruct e; apply inv_raise].
  apply inv_bind; [apply inv_getsize|]. intros _.
  apply inv_bind; [apply inv_read|]. intros content.
  destruct (find content "<stream:stream" =? -1); [apply inv_raise|].
  apply inv_bind.
  { apply inv_try_except; [apply inv_lift|].
    intros e; destruct e; apply inv_raise. }
  intros root.
  destruct (length _ =? 0)%nat; [apply inv_raise|].
  apply inv_bind; [apply inv_minos_iqs | intros; apply inv_ret].
Qed.

(** The loader that [load_file] picks keeps the relation. *)
Lemma inv_loaders filepath :
  let extension := lower (PyFile.suffix filepath) in
  relates R
    (if String.eqb extension ".csl" then load_csl filepath bounded
     else if String.eqb extension ".edi" then load_edi filepath bounded
     else if String.eqb extension ".adi" || String.eqb extension ".adif"
          then load_adif filepath bounded
     else if String.eqb extension ".minos"
          then load_minos fromstring filepath bounded
     else ret tt).
Proof.
  intros extension.
  destruct (String.eqb extension ".csl"); [apply inv_load_csl|].
  destruct (String.eqb extension ".edi"); [apply inv_load_edi|].
  destruct (String.eqb extension ".adi" || String.eqb extension ".adif");
    [apply inv_load_adif|].
  destruct (String.eqb extension ".minos"); [apply inv_load_minos|].
  apply inv_ret.
Qed.

Lemma inv_load_file filepath :
  (forall p, relates R (set_current_file p)) ->
  relates R (set_has_unsaved_changes true) ->
  relates R notify_observers ->
  relates R (load_file fromstring filepath progress_callback).
Proof.
  intros H1 H2 H3. unfold load_file.
  apply inv_bind; [now apply inv_same|]. intros present.
  destruct (negb present); [apply inv_raise|].
  destruct (negb (existsb _ SUPPORTED_FORMATS)); [apply inv_raise|].
  apply inv_bind; [apply inv_getsize|]. intros _.
  apply inv_bind; [apply inv_loaders|]. intros _.
  apply inv_bind; [apply H1|]. intros _.
  apply inv_bind; [apply H2 | intros _; apply H3].
Qed.

End LoadInvariant.

Lemma callback_sink_leaves_engine_alone : leaves_engine_alone (Some sink).
Proof. intros cb [= <-] q w. reflexivity. Qed.

Lemma no_callback_leaves_engine_alone : leaves_engine_alone None.
Proof. intros cb. discriminate. Qed.

(** *** Loads never store a blank callsign *)

Lemma add_stripped_keeps_no_blank r w :
  strip (callsign r) = callsign r ->
  no_blank_callsign (records (self w)) ->
  no_blank_callsign (records (self (snd (add_or_merge_record r w)))).
Proof.
  unfold no_blank_callsign. intros Hs Hinv.
  destruct (accepted (self w) r) eqn:Ha; [|now rewrite rejected_unchanged].
  assert (Hr : strip (callsign r) <> "").
  { apply accepted_iff in Ha as [Hc _]. congruence. }
  destruct (accepted_shapes w r Ha) as (l & -> & Hl). simpl.
  destruct Hl as [[_ ->] | [(_ & _ & ->) |
    (pre & post & x & Hw & _ & _ & [[_ ->] | [_ ->]])]].
  - destruct (PyList.contains _ r); [exact Hinv|].
    apply Forall_app. auto.
  - apply Forall_app. auto.
  - rewrite Hw in Hinv. apply Forall_app in Hinv as [H1 H2].
    inversion H2; subst. rewrite !Forall_app. auto.
  - rewrite Hw in Hinv. apply Forall_app in Hinv as [H1 H2].
    inversion H2; subst. apply Forall_app. split; [auto|].
    constructor; auto.
Qed.

Lemma no_blank_invariant progress_callback :
  leaves_engine_alone progress_callback ->
  load_invariant
    (fun w w' => no_blank_callsign (records (self w)) ->
                 no_blank_callsign (records (self w')))
    progress_callback.
Proof.
  intros Hcb. constructor.
  - auto.
  - auto.
  - intros w w' ->. auto.
  - intros cb E q w. now rewrite (Hcb cb E q w).
  - intros r Hr w. now apply add_stripped_keeps_no_blank.
Qed.

(** X11. If no stored callsign is blank before a load, none is after it,
    for every file and format: the four loaders strip the callsign before
    they call the entry point. The progress callback is one that does not
    touch the engine. *)
Theorem loads_never_store_a_blank_callsign
  fromstring filepath progress_callback w :
  leaves_engine_alone progress_callback ->
  no_blank_callsign (records (self w)) ->
  no_blank_callsign
    (records (self (snd (load_file fromstring filepath progress_callback w)))).
Proof.
  intros Hcb.
  apply (inv_load_file _ progress_callback (no_blank_invariant _ Hcb)
           fromstring filepath); intros; intros ?; auto.
Qed.

(** *** Loads leave the settings alone *)

Lemma settings_invariant progress_callback :
  leaves_engine_alone progress_callback ->
  load_invariant
    (fun w w' => merge_mode (self w') = merge_mode (self w)
                 /\ remove_callsign_only (self w')
                    = remove_callsign_only (self w)
                 /\ observers (self w') = observers (self w))
    progress_callback.
Proof.
  intros Hcb. constructor.
  - auto.
  - intros w1 w2 w3 (A1 & A2 & A3) (B1 & B2 & B3). repeat split; congruence.
  - intros w w' ->. auto.
  - intros cb E q w. now rewrite (Hcb cb E q w).
  - intros r _ w.
    destruct (add_or_merge_record_frame w r) as (H1 & H2 & H3 & _). auto.
Qed.

(** X12. A load never changes the merge policy, the callsign-only filter
    or the observer list, whether it returns or raises. *)
Theorem loads_leave_the_settings_alone
  fromstring filepath progress_callback w :
  leaves_engine_alone progress_callback ->
  let w' := snd (load_file fromstring filepath progress_callback w) in
  merge_mode (self w') = merge_mode (self w)
  /\ remove_callsign_only (self w') = remove_callsign_only (self w)
  /\ observers (self w') = observers (self w).
Proof.
  intros Hcb.
  apply (inv_load_file _ progress_callback (settings_invariant _ Hcb)
           fromstring filepath); intros; intros ?; auto.
Qed.

Lemma loads_leave_the_settings_alone_witness :
  leaves_engine_alone (Some sink)
  /\ merge_mode
       (self (snd (load_file sample_fromstring "log.edi" (Some sink)
                     (mkWorld (mkManager [] None SMART_MERGE true [3%nat] false)
                        [] [] sample_files ∅))))
     = SMART_MERGE.
Proof.
  split; [exact callback_sink_leaves_engine_alone|].
  exact (proj1 (loads_leave_the_settings_alone sample_fromstring "log.edi"
                  (Some sink)
                  (mkWorld (mkManager [] None SMART_MERGE true [3%nat] false)
                     [] [] sample_files ∅)
                  callback_sink_leaves_engine_alone)).
Defined.

Lemma loads_never_store_a_blank_callsign_witness :
  leaves_engine_alone (Some sink)
  /\ no_blank_callsign (records (self (fresh_world sample_files)))
  /\ no_blank_callsign
       (records (self (snd (load_file sample_fromstring "log.adi" (Some sink)
                              (fresh_world sample_files))))).
Proof.
  split; [exact callback_sink_leaves_engine_alone|].
  split; [constructor|].
  apply loads_never_store_a_blank_callsign;
    [exact callback_sink_leaves_engine_alone | constructor].
Defined.

(** *** Under Keep-All a load only appends *)

Lemma keep_all_appends_invariant progress_callback :
  leaves_engine_alone progress_callback ->
  load_invariant
    (fun w w' => merge_mode (self w) = KEEP_ALL ->
                 merge_mode (self w') = KEEP_ALL
                 /\ exists added,
                      records (self w') = records (self w) ++ added)
    progress_callback.
Proof.
  intros Hcb. constructor.
  - intros w Hm. split; [exact Hm|]. exists []. now rewrite app_nil_r.
  - intros w1 w2 w3 H12 H23 Hm.
    destruct (H12 Hm) as (Hm2 & a & Ha).
    destruct (H23 Hm2) as (Hm3 & b & Hb).
    split; [exact Hm3|]. exists (a ++ b). rewrite Hb, Ha.
    now rewrite app_assoc.
  - intros w w' -> Hm. split; [exact Hm|]. exists []. now rewrite app_nil_r.
  - intros cb E q w. rewrite (Hcb cb E q w). intros Hm.
    split; [exact Hm|]. exists []. now rewrite app_nil_r.
  - intros r _ w Hm. destruct (accepted (self w) r) eqn:Ha.
    + rewrite keep_all_step by assumption. simpl. split; [exact Hm|].
      destruct (PyList.contains _ r); [exists []; now rewrite app_nil_r|].
      now exists [r].
    + rewrite rejected_unchanged by assumption.
      split; [exact Hm|]. exists []. now rewrite app_nil_r.
Qed.

(** X13. Under Keep-All a load only appends: the records stored before
    the load are a prefix of the store after it, whether the load returns
    or raises. *)
Theorem keep_all_load_only_appends
  fromstring filepath progress_callback w :
  leaves_engine_alone progress_callback ->
  merge_mode (self w) = KEEP_ALL ->
  exists added,
    records (self (snd (load_file fromstring filepath progress_callback w)))
    = records (self w) ++ added.
Proof.
  intros Hcb Hm.
  apply (inv_load_file _ progress_callback (keep_all_appends_invariant _ Hcb)
           fromstring filepath); auto;
    intros; intros ? Hm'; (split; [exact Hm'|]); exists []; simpl;
    now rewrite app_nil_r.
Qed.

Lemma keep_all_load_only_appends_witness :
  leaves_engine_alone (Some sink)
  /\ merge_mode (self observed_world) = KEEP_ALL
  /\ exists added,
       records
         (self (snd (load_file sample_fromstring "log.edi" (Some sink)
                       (mkWorld (self observed_world) [] [] sample_files ∅))))
       = [g4ctp] ++ added.
Proof.
  split; [exact callback_sink_leaves_engine_alone|].
  split; [reflexivity|].
  exact (keep_all_load_only_appends sample_fromstring "log.edi" (Some sink)
           (mkWorld (self observed_world) [] [] sample_files ∅)
           callback_sink_leaves_engine_alone eq_refl).
Defined.

(** *** What a load that returns has done *)

(** X14. A load that returns has recorded the path as current file, set
    the dirty flag (even if no record was read) and notified the observers
    last; the path existed and its extension, in lower case, is one of
    the supported ones. *)
Theorem successful_load_marks_the_engine
  fromstring filepath progress_callback w :
  fst (load_file fromstring filepath progress_callback w) = Ok tt ->
  let w' := snd (load_file fromstring filepath progress_callback w) in
  current_file (self w') = Some filepath
  /\ has_unsaved_changes (self w') = true
  /\ (exists earlier, notified w' = earlier ++ observers (self w'))
  /\ is_Some (disk w !! filepath)
  /\ In (lower (PyFile.suffix filepath)) SUPPORTED_FORMATS.
Proof.
  remember (load_file fromstring filepath progress_callback w) as res eqn:Hres.
  unfold load_file, bind at 1, PyFile.exists_ in Hres. cbn [fst snd] in Hres.
  destruct (disk w !! filepath) as [text|] eqn:Hd;
    [|subst res; intros H; discriminate H].
  rewrite bool_decide_eq_true_2 in Hres by (eexists; reflexivity).
  cbn [negb] in Hres.
  destruct (existsb (String.eqb (lower (PyFile.suffix filepath)))
              SUPPORTED_FORMATS) eqn:Hx; cbn [negb] in Hres;
    [|subst res; intros H; discriminate H].
  unfold bind at 1, PyFile.getsize in Hres. rewrite Hd in Hres.
  unfold bind at 1 in Hres.
  match type of Hres with context [(if ?b then ?m else ?n) w] =>
    destruct ((if b then m else n) w) as [[[]|e] w1] end;
    subst res; [|intros H; discriminate H].
  intros _. cbn. repeat split; eauto.
  apply existsb_exists in Hx as (x & Hx & He).
  apply String.eqb_eq in He. subst x. exact Hx.
Qed.

Lemma successful_load_marks_the_engine_witness :
  fst (load_file sample_fromstring "log.adi" None (fresh_world sample_files))
  = Ok tt
  /\ current_file
       (self (snd (load_file sample_fromstring "log.adi" None
                     (fresh_world sample_files))))
     = Some "log.adi".
Proof.
  split; [reflexivity|].
  exact (proj1 (successful_load_marks_the_engine sample_fromstring "log.adi"
                  None (fresh_world sample_files) eq_refl)).
Defined.

(** ** What the writer writes, the reader reads *)

Lemma append_cons x (a b : string) : String x a +:+ b = String x (a +:+ b).
Proof. reflexivity. Qed.


























(** ** Saving and reloading a clean store *)









(** ** The contact section of an EDI log *)

Lemma prefix_append p :
  forall s, String.prefix p s = true -> exists t, s = p +:+ t.
Proof.
  induction p as [|a p IH]; intros s H; [now exists s|].
  destruct s as [|b s]; [discriminate|]. simpl in H.
  destruct (Ascii.ascii_dec a b) as [<-|]; [|discriminate].
  destruct (IH s H) as [t ->]. now exists t.
Qed.

Lemma end_is_not_a_section_start s :
  startswith s "[END;" = true -> startswith s "[QSORecords;" = false.
Proof.
  unfold startswith. intros H. apply prefix_append in H as [t ->].
  reflexivity.
Qed.

(** X15. The second pass of the EDI loader stops at the first line that
    starts with [[END;]: whatever follows that line has no effect on the
    pass. *)
Theorem edi_reads_nothing_after_end
  progress_callback total (before : list string) closing after :
  startswith (strip closing) "[END;" = true ->
  forall processed in_qso_section comments w,
    edi_qsos progress_callback total processed in_qso_section comments
      (before ++ closing :: after) w
    = edi_qsos progress_callback total processed in_qso_section comments
        (before ++ [closing]) w.
Proof.
  intros Hend. pose proof (end_is_not_a_section_start _ Hend) as Hq.
  induction before as [|line before IH];
    intros processed in_qso_section comments w.
  - cbn [app edi_qsos]. now rewrite Hq, Hend.
  - cbn [app edi_qsos]. apply bind_ext. intros _ w1.
    destruct (startswith (strip line) "[QSORecords;"); [apply IH|].
    destruct (startswith (strip line) "[END;"); [reflexivity|].
    apply bind_ext. intros _ w2. apply IH.
Qed.

Lemma edi_reads_nothing_after_end_witness :
  startswith (strip "[END;1]") "[END;" = true
  /\ records
       (self (snd (edi_qsos None 3 0 true ∅
                     ["[END;1]"; "240101;1200;G4CTP;1;59;001;59;002;;IO91"]
                     (fresh_world ∅))))
     = [].
Proof.
  split; [reflexivity|].
  rewrite (edi_reads_nothing_after_end None 3 [] "[END;1]"
             ["240101;1200;G4CTP;1;59;001;59;002;;IO91"] eq_refl).
  reflexivity.
Defined.

Lemma report_leaves_engine_alone progress_callback percentage w :
  leaves_engine_alone progress_callback ->
  self (snd (report progress_callback percentage w)) = self w.
Proof.
  intros Hcb. destruct progress_callback as [cb|]; [|reflexivity].
  simpl. unfold bind, lift. destruct percentage as [q|e]; [|reflexivity].
  specialize (Hcb cb eq_refl q w).
  destruct (cb q w) as [[[]|e] w1]; exact Hcb.
Qed.

Lemma bind_report_self {A} progress_callback percentage (k : unit -> M A) w :
  leaves_engine_alone progress_callback ->
  (forall w1, self w1 = self w -> self (snd (k tt w1)) = self w) ->
  self (snd (bind (report progress_callback percentage) k w)) = self w.
Proof.
  intros Hcb Hk. pose proof (report_leaves_engine_alone _ percentage w Hcb) as H.
  unfold bind. destruct (report progress_callback percentage w) as [[[]|e] w1];
    simpl in *; [now apply Hk | exact H].
Qed.

Lemma edi_comments_leave_engine_alone progress_callback total lines :
  leaves_engine_alone progress_callback ->
  forall processed in_remarks comments w,
    self (snd (edi_comments progress_callback total processed in_remarks
                 comments lines w)) = self w.
Proof.
  intros Hcb. induction lines as [|line rest IH];
    intros processed in_remarks comments w; [reflexivity|].
  cbn [edi_comments]. apply bind_report_self; [exact Hcb|].
  intros w1 H1. rewrite <- H1.
  destruct (startswith (strip line) "[Remarks]"); [apply IH|].
  destruct (startswith (strip line) "[QSORecords;"); apply IH.
Qed.

Lemma edi_qsos_outside_section progress_callback total lines :
  leaves_engine_alone progress_callback ->
  Forall (fun line => startswith (strip line) "[QSORecords;" = false) lines ->
  forall processed comments w,
    self (snd (edi_qsos progress_callback total processed false comments
                 lines w)) = self w.
Proof.
  intros Hcb Hlines. induction Hlines as [|line rest Hline _ IH];
    intros processed comments w; [reflexivity|].
  cbn [edi_qsos]. apply bind_report_self; [exact Hcb|].
  intros w1 H1. rewrite <- H1. rewrite Hline.
  destruct (startswith (strip line) "[END;"); [reflexivity|].
  cbn [andb]. unfold bind at 1. cbn [ret]. apply IH.
Qed.

(** X16. An EDI file in which no line starts with [[QSORecords;] leaves
    the engine state as it was: contacts are read only inside the contact
    section. *)
Theorem edi_without_section_marker_stores_nothing
  filename progress_callback w :
  leaves_engine_alone progress_callback ->
  (forall text,
     disk w !! filename = Some text ->
     Forall (fun line => startswith (strip line) "[QSORecords;" = false)
       (PyFile.readlines (PyFile.universal_newlines text))) ->
  self (snd (load_edi filename progress_callback w)) = self w.
Proof.
  intros Hcb Hlines. unfold load_edi, PyFile.getsize, PyFile.read.
  unfold bind at 1. destruct (disk w !! filename) as [text|] eqn:Hd;
    [|reflexivity].
  unfold bind at 1. rewrite Hd.
  specialize (Hlines text eq_refl).
  set (lines := PyFile.readlines (PyFile.universal_newlines text)) in *.
  unfold bind.
  pose proof (edi_comments_leave_engine_alone progress_callback (length lines)
                lines Hcb 0%nat false ∅ w) as Hc.
  destruct (edi_comments progress_callback (length lines) 0 false ∅ lines w)
    as [[comments|e] w1]; simpl in Hc; [|exact Hc].
  rewrite <- Hc. now apply edi_qsos_outside_section.
Qed.

Lemma edi_without_section_marker_stores_nothing_witness :
  leaves_engine_alone (Some sink)
  /\ self (snd (load_edi "notes.edi" (Some sink)
                  (mkWorld (self smart_world) [] []
                     {[ "notes.edi" := "240101;1200;G4CTP;1;59;001;59;002;;IO91" ]}
                     ∅)))
     = self smart_world.
Proof.
  split; [exact callback_sink_leaves_engine_alone|].
  apply (edi_without_section_marker_stores_nothing "notes.edi" (Some sink)
           (mkWorld (self smart_world) [] []
              {[ "notes.edi" := "240101;1200;G4CTP;1;59;001;59;002;;IO91" ]} ∅)
           callback_sink_leaves_engine_alone).
  intros text [= <-]. repeat constructor.
Defined.

(** ** Shortening a path for display *)

Lemma append_length (a b : string) :
  String.length (a +:+ b) = (String.length a + String.length b)%nat.
Proof.
  induction a as [|c a IH]; [reflexivity|].
  rewrite append_cons. simpl. now rewrite IH.
Qed.

(** X17. [truncate_path]: a path that fits is returned as it is; a longer
    path is cut to exactly [max_length] characters, three dots followed by
    its last [max_length - 3] characters, when [max_length] is above 3;
    with [max_length = 3] the negated slice bound is 0 and the whole path
    follows the dots. *)
Theorem truncate_path_outcome path max_length :
  (Z.of_nat (String.length path) <= max_length ->
   truncate_path path max_length = path)
  /\ (3 < max_length < Z.of_nat (String.length path) ->
      Z.of_nat (String.length (truncate_path path max_length)) = max_length
      /\ truncate_path path max_length
         = "..." +:+ drop (String.length path - Z.to_nat (max_length - 3)) path)
  /\ (max_length = 3 -> (3 < String.length path)%nat ->
      truncate_path path max_length = "..." +:+ path).
Proof.
  unfold truncate_path. split; [|split].
  - intros H. apply Z.leb_le in H. now rewrite H.
  - intros [H3 Hlen].
    replace (Z.of_nat (String.length path) <=? max_length) with false
      by (symmetry; apply Z.leb_gt; lia).
    assert (Hs : slice_from path (- (max_length - 3))
                 = drop (String.length path - Z.to_nat (max_length - 3)) path).
    { unfold slice_from, norm_bound.
      replace (- (max_length - 3) <? 0) with true
        by (symmetry; apply Z.ltb_lt; lia).
      f_equal. lia. }
    rewrite Hs. split; [|reflexivity].
    rewrite append_length, drop_length. simpl. lia.
  - intros -> Hlen.
    replace (Z.of_nat (String.length path) <=? 3) with false
      by (symmetry; apply Z.leb_gt; lia).
    unfold slice_from, norm_bound. change (- (3 - 3) <? 0) with false.
    cbv iota.
    replace (Z.to_nat (Z.min (Z.max (- (3 - 3)) 0)
                         (Z.of_nat (String.length path)))) with 0%nat by lia.
    reflexivity.
Qed.

Lemma truncate_path_outcome_witness :
  3 < 8 < Z.of_nat (String.length "C:/logs/contest.csl")
  /\ truncate_path "C:/logs/contest.csl" 8 = "...t.csl"
  /\ truncate_path "abcd" 3 = "...abcd".
Proof.
  split; [split; reflexivity|]. split.
  - rewrite (proj2 (proj1 (proj2 (truncate_path_outcome
                                    "C:/logs/contest.csl" 8))
                      ltac:(split; reflexivity))).
    reflexivity.
  - exact (proj2 (proj2 (truncate_path_outcome "abcd" 3)) eq_refl
             ltac:(simpl; lia)).
Defined.

(** ** A Minos contact with an empty locator or exchange element *)

Lemma report_returns progress_callback percentage w q :
  returns_normally progress_callback ->
  percentage = Ok q ->
  fst (report progress_callback percentage w) = Ok tt.
Proof.
  intros Hcb ->. destruct progress_callback as [cb|]; [|reflexivity].
  simpl. unfold bind, lift. pose proof (Hcb cb eq_refl q w) as H.
  destruct (cb q w) as [[[]|e] w1]; [reflexivity | discriminate H].
Qed.

Lemma get_stripped_none qso_data key :
  qso_data !! Some key = Some None ->
  get_stripped qso_data key
  = Raise (AttributeError "'NoneType' object has no attribute 'strip'").
Proof. intros H. unfold get_stripped. now rewrite H. Qed.

Lemma get_stripped_raise qso_data key e :
  get_stripped qso_data key = Raise e ->
  e = AttributeError "'NoneType' object has no attribute 'strip'".
Proof.
  unfold get_stripped. destruct (qso_data !! Some key) as [[s|]|];
    congruence.
Qed.

Lemma minos_empty_element_raises
  progress_callback total processed qso_count iq rest params w :
  returns_normally progress_callback ->
  leaves_engine_alone progress_callback ->
  (0 < total)%nat ->
  qso_params iq = Some params ->
  is_truthy (get (collect_members params) "callRx") = true ->
  collect_members params !! Some "locRx" = Some None
  \/ collect_members params !! Some "exchangeRx" = Some None ->
  exists w1,
    minos_iqs progress_callback total processed qso_count (iq :: rest) w
    = (Raise (AttributeError "'NoneType' object has no attribute 'strip'"), w1)
    /\ self w1 = self w.
Proof.
  intros Hn Ha Ht Hp Hc Hnone. cbn [minos_iqs].
  assert (Hq : exists q, minos_progress (S processed) total = Ok q).
  { unfold minos_progress, percent, PyNum.truediv.
    replace (Z.of_nat total =? 0) with false
      by (symmetry; apply Z.eqb_neq; lia). eauto. }
  destruct Hq as [q Hq].
  pose proof (report_returns progress_callback _ w q Hn Hq) as Hok.
  pose proof (report_leaves_engine_alone progress_callback
                (minos_progress (S processed) total) w Ha) as Hself.
  unfold bind at 1.
  destruct (report progress_callback (minos_progress (S processed) total) w)
    as [[[]|e] w1]; simpl in Hok, Hself; [|discriminate].
  exists w1. split; [|exact Hself]. rewrite Hp, Hc.
  assert (Hcall : exists s, get_stripped (collect_members params) "callRx" = Ok s).
  { unfold is_truthy, get in Hc. unfold get_stripped.
    destruct (collect_members params !! Some "callRx") as [[s|]|];
      try discriminate. eauto. }
  destruct Hcall as [s Hs]. unfold bind, lift. rewrite Hs.
  destruct Hnone as [Hnone | Hnone].
  - now rewrite (get_stripped_none _ _ Hnone).
  - destruct (get_stripped (collect_members params) "locRx") as [l|e] eqn:El.
    + now rewrite (get_stripped_none _ _ Hnone).
    + apply get_stripped_raise in El. now subst e.
Qed.

(** X19. A Minos contact with a non-empty [callRx] whose [locRx] or
    [exchangeRx] member is present with an element that has no text makes
    the loop raise [AttributeError] (the text is [None], which has no
    [strip]) before the record reaches the entry point; the rest of the
    file is not read. *)
Theorem minos_empty_element_aborts_the_load
  progress_callback total processed qso_count iq rest params w :
  returns_normally progress_callback ->
  leaves_engine_alone progress_callback ->
  (0 < total)%nat ->
  qso_params iq = Some params ->
  is_truthy (get (collect_members params) "callRx") = true ->
  collect_members params !! Some "locRx" = Some None
  \/ collect_members params !! Some "exchangeRx" = Some None ->
  let outcome :=
    minos_iqs progress_callback total processed qso_count (iq :: rest) w in
  fst outcome
  = Raise (AttributeError "'NoneType' object has no attribute 'strip'")
  /\ self (snd outcome) = self w.
Proof.
  intros Hn Ha Ht Hp Hc Hnone outcome. subst outcome.
  destruct (minos_empty_element_raises progress_callback total processed
              qso_count iq rest params w Hn Ha Ht Hp Hc Hnone)
    as (w1 & -> & Hself).
  auto.
Qed.

Lemma minos_empty_element_aborts_the_load_witness :
  qso_params sample_qso_iq <> None
  /\ fst (minos_iqs None 1 0 0 [sample_qso_iq] (fresh_world ∅))
     = Raise (AttributeError "'NoneType' object has no attribute 'strip'").
Proof.
  split; [discriminate|].
  refine (proj1 (minos_empty_element_aborts_the_load None 1 0 0 sample_qso_iq
                   [] _ (fresh_world ∅) returns_normally_none
                   no_callback_leaves_engine_alone ltac:(lia) eq_refl
                   eq_refl _)).
  left. reflexivity.
Defined.

Lemma adif_loop_fuel_witness :
  (String.length sample_adif_text < 40)%nat
  /\ adif_loop 40 None 33 0 sample_adif_text (fresh_world ∅)
     = adif_loop 100 None 33 0 sample_adif_text (fresh_world ∅).
Proof.
  split; [simpl; lia|].
  apply adif_loop_fuel; simpl; lia.
Defined.
